(** * Trade summary system: brokerage engine and report builder

    Shallow embedding of [src/app/trade-system.tsx].  The source file holds
    two successive texts of the program: the complete component (lines
    1-563) and a typed revision of its engine (lines 564-722).  The parts the
    two texts share are embedded once; the functions that differ live in the
    modules [V1] and [V2].

    JavaScript numbers are IEEE-754 binary64 values.  They are modelled by
    [spec_float] at precision 53 and maximal exponent 1024, with the
    operations of [SpecFloat], so every sum, product and quotient below is
    rounded the way the engine rounds it.

    Strings are byte strings; case conversion and white space follow the
    ASCII part of the ECMAScript definitions. *)

From Stdlib Require Import ZArith Ascii String List Bool Lia SpecFloat.
From stdpp Require Import base option list gmap strings.
From Stdlib Require Import Sorted.

Local Open Scope string_scope.
Local Open Scope list_scope.
Local Open Scope Z_scope.

(** ** Numbers *)

Module Num.

Definition prec : Z := 53.
Definition emax : Z := 1024.

Abbreviation num := spec_float.

Definition add : num -> num -> num := SFadd prec emax.
Definition sub : num -> num -> num := SFsub prec emax.
Definition mul : num -> num -> num := SFmul prec emax.
Definition div : num -> num -> num := SFdiv prec emax.

Definition leb : num -> num -> bool := SFleb.
Definition ltb : num -> num -> bool := SFltb.

(** The double nearest to the integer [z]. *)
Definition of_Z (z : Z) : num := binary_normalize prec emax z 0 false.

Definition zero : num := S754_zero false.
Definition NaN : num := S754_nan.
Definition Infinity : num := S754_infinity false.

(** ToBoolean on a number: NaN, +0 and -0 are falsy. *)
Definition truthy (x : num) : bool :=
  match x with
  | S754_nan | S754_zero _ => false
  | _ => true
  end.

(** [x || 0] *)
Definition or0 (x : num) : num := if truthy x then x else zero.

(** The double nearest to [m * 10^e] (sign [neg]), ties to even: the
    value ECMAScript gives to a decimal literal. *)
Definition of_decimal (neg : bool) (m : Z) (e : Z) : num :=
  match m with
  | Z0 => S754_zero neg
  | Zneg _ => S754_nan
  | Zpos _ =>
      if 0 <=? e
      then binary_normalize prec emax ((if neg then - m else m) * 10 ^ e) 0 false
      else
        let '(q, e2, l) := SFdiv_core_binary prec emax m 0 (10 ^ (- e)) 0 in
        binary_round_aux prec emax neg q e2 l
  end.

End Num.
Import Num.

Declare Scope num_scope.
Delimit Scope num_scope with num.
Infix "+" := Num.add : num_scope.
Infix "-" := Num.sub : num_scope.
Infix "*" := Num.mul : num_scope.
Infix "/" := Num.div : num_scope.

(** ** Strings *)

Definition is_lower (c : ascii) : bool :=
  let n := N_of_ascii c in ((97 <=? n) && (n <=? 122))%N.

Definition upper_char (c : ascii) : ascii :=
  if is_lower c then ascii_of_N (N_of_ascii c - 32) else c.

(** [String.prototype.toUpperCase] on ASCII text: the letters a-z go to
    A-Z and every other byte stays (the function of the language also maps
    letters outside ASCII). *)
Fixpoint toUpperCase (s : string) : string :=
  match s with
  | EmptyString => EmptyString
  | String c r => String (upper_char c) (toUpperCase r)
  end.

Definition is_digit (c : ascii) : bool :=
  let n := N_of_ascii c in ((48 <=? n) && (n <=? 57))%N.

Definition digit_val (c : ascii) : Z := Z.of_N (N_of_ascii c) - 48.

(** The ASCII part of StrWhiteSpaceChar: TAB, LF, VT, FF, CR, SP. *)
Definition is_space (c : ascii) : bool :=
  let n := N_of_ascii c in (((9 <=? n) && (n <=? 13)) || (n =? 32))%N.

Fixpoint trimStart (s : string) : string :=
  match s with
  | String c r => if is_space c then trimStart r else s
  | EmptyString => s
  end.

(** Longest run of decimal digits at the head of [s]: its value, its length
    and the rest of the string. *)
Fixpoint take_digits (acc : Z) (n : Z) (s : string) : Z * Z * string :=
  match s with
  | String c r =>
      if is_digit c then take_digits (10 * acc + digit_val c) (n + 1) r
      else (acc, n, s)
  | EmptyString => (acc, n, s)
  end.

Definition take_sign (s : string) : bool * string :=
  match s with
  | String "-" r => (true, r)
  | String "+" r => (false, r)
  | _ => (false, s)
  end.

(** ExponentPart, used only when at least one digit follows the indicator. *)
Definition take_exponent (s : string) : Z :=
  match s with
  | String c r =>
      if (Ascii.eqb c "e" || Ascii.eqb c "E")%bool then
        let '(neg, r1) := take_sign r in
        let '(v, n, _) := take_digits 0 0 r1 in
        if n =? 0 then 0 else if neg then - v else v
      else 0
  | EmptyString => 0
  end.

(** [parseFloat] on a string: the longest prefix of the trimmed input that is
    a StrDecimalLiteral, NaN when there is none. *)
Definition parseFloat_string (s : string) : num :=
  let '(neg, s1) := take_sign (trimStart s) in
  if String.prefix "Infinity" s1 then S754_infinity neg
  else
    let '(ip, ni, s2) := take_digits 0 0 s1 in
    let '(m, nf, s3) :=
      match s2 with
      | String "." r => let '(m, n, r1) := take_digits ip ni r in (m, n - ni, r1)
      | _ => (ip, 0, s2)
      end in
    if ni + nf =? 0 then NaN
    else of_decimal neg m (take_exponent s3 - nf).

(** [parseFloat(x)] where [x] is a string or [undefined] ([None]): the
    argument goes through ToString first, and "undefined" has no numeric
    prefix. *)
Definition parseFloat (x : option string) : num :=
  match x with
  | Some s => parseFloat_string s
  | None => parseFloat_string "undefined"
  end.

(** ** Data model *)

(** A row of the trade table.  [Qty] and [Vol] are optional in the first
    declaration of the type ([None] is [undefined]).  The field the source
    calls [Type] is [Type_] here, and [id] is [id_]. *)
Record Trade := {
  id_ : string;
  Date : string;
  Action : string;
  Qty : option string;
  Price : string;
  Vol : option string;
  Script : string;
  Type_ : string;
  Exchange : string
}.

(** [defaultRow]; the random identifier is an argument. *)
Definition defaultRow (i : string) : Trade :=
  {| id_ := i; Date := ""; Action := "BUY"; Qty := Some ""; Price := "";
     Vol := Some ""; Script := ""; Type_ := "NORMAL"; Exchange := "NSE" |}.

(** An entry of the lot-based schedule ([McxScript]). *)
Module Mcx.
Record t := { script : string; lotQty : num; rate : num }.
End Mcx.

Definition DEFAULT_NSE_RATE : num := of_Z 3000.

Definition DEFAULT_MCX_SCRIPTS : list Mcx.t :=
  [ {| Mcx.script := "CRUDEOIL"; Mcx.lotQty := of_Z 100; Mcx.rate := of_Z 40 |};
    {| Mcx.script := "GOLD"; Mcx.lotQty := of_Z 1; Mcx.rate := of_Z 30 |};
    {| Mcx.script := "SILVER"; Mcx.lotQty := of_Z 30; Mcx.rate := of_Z 25 |};
    {| Mcx.script := "COPPER"; Mcx.lotQty := of_Z 2500; Mcx.rate := of_Z 20 |};
    {| Mcx.script := "NATURALGAS"; Mcx.lotQty := of_Z 1250; Mcx.rate := of_Z 35 |} ].

(** The [mcxMap] memo of the component: every schedule row is stored under
    its uppercased symbol, a later row replacing an earlier one. *)
Definition mcxMap (mcxScripts : list Mcx.t) : gmap string Mcx.t :=
  fold_left (fun m s => <[toUpperCase (Mcx.script s) := s]> m) mcxScripts ∅.

(** ** Plain objects used as maps

    [buildReport] keeps its groups in an object literal and reads them back
    with [Object.values].  The own string keys of an ordinary object are
    enumerated with the array indices first, in ascending numeric order,
    and the other keys after them in order of creation.

    Both objects of the engine are only read at uppercased keys (or at
    "UNKNOWN"), and every property an object literal inherits has a
    lowercase letter in its name, so a lookup sees own properties only. *)
Module JsObject.
Section Props.
Context {V : Type}.

(** Own properties, in order of creation. *)
Definition t := list (string * V).

Definition empty : t := [].

Fixpoint get (o : t) (k : string) : option V :=
  match o with
  | [] => None
  | (k', v) :: r => if String.eqb k' k then Some v else get r k
  end.

(** [o[k] = v]: an existing property keeps its place. *)
Fixpoint set (o : t) (k : string) (v : V) : t :=
  match o with
  | [] => [(k, v)]
  | (k', v') :: r =>
      if String.eqb k' k then (k', v) :: r else (k', v') :: set r k v
  end.

Fixpoint all_digits (s : string) : bool :=
  match s with
  | EmptyString => true
  | String c r => is_digit c && all_digits r
  end.

(** A key is an array index when it is the canonical decimal form of an
    integer between 0 and 2^32 - 2. *)
Definition array_index (k : string) : option Z :=
  match k with
  | EmptyString => None
  | String c r =>
      if all_digits k && (negb (Ascii.eqb c "0") || String.eqb r "") then
        let '(v, _, _) := take_digits 0 0 k in
        if v <=? 4294967294 then Some v else None
      else None
  end.

Fixpoint insert_index (i : Z) (v : V) (l : list (Z * V)) : list (Z * V) :=
  match l with
  | [] => [(i, v)]
  | (j, w) :: r => if i <? j then (i, v) :: l else (j, w) :: insert_index i v r
  end.

Fixpoint index_props (o : t) : list (Z * V) :=
  match o with
  | [] => []
  | (k, v) :: r =>
      match array_index k with
      | Some i => insert_index i v (index_props r)
      | None => index_props r
      end
  end.

Fixpoint string_props (o : t) : list V :=
  match o with
  | [] => []
  | (k, v) :: r =>
      match array_index k with
      | Some _ => string_props r
      | None => v :: string_props r
      end
  end.

(** [Object.values(o)] *)
Definition values (o : t) : list V :=
  map snd (index_props o) ++ string_props o.
End Props.
Arguments t : clear implicits.
End JsObject.

(** ** Report groups *)

Record Group := {
  script : string;
  exchange : string;
  buys : list Trade;
  sells : list Trade
}.

Record ReportGroup := {
  group :> Group;
  buyVol : num;
  sellVol : num;
  buyBrk : num;
  sellBrk : num;
  totalBrk : num;
  gross : num;
  net : num
}.

(** [t.Script.toUpperCase() || "UNKNOWN"] *)
Definition groupKey (t : Trade) : string :=
  let k := toUpperCase (Script t) in
  if String.eqb k "" then "UNKNOWN" else k.

(** One turn of the grouping loop of [buildReport]. *)
Definition groupStep (groups : JsObject.t Group) (t : Trade) : JsObject.t Group :=
  let key := groupKey t in
  let g :=
    match JsObject.get groups key with
    | Some g => g
    | None => {| script := key; exchange := Exchange t; buys := []; sells := [] |}
    end in
  let g :=
    if String.eqb (Action t) "BUY"
    then {| script := script g; exchange := exchange g;
            buys := buys g ++ [t]; sells := sells g |}
    else {| script := script g; exchange := exchange g;
            buys := buys g; sells := sells g ++ [t] |} in
  JsObject.set groups key
    {| script := script g; exchange := Exchange t; buys := buys g; sells := sells g |}.

Definition groupTrades (trades : list Trade) : JsObject.t Group :=
  fold_left groupStep trades JsObject.empty.

(** [l.reduce((s, x) => s + f(x), 0)] *)
Definition sumBy {A : Type} (f : A -> num) (l : list A) : num :=
  fold_left (fun s x => (s + f x)%num) l zero.

Section ReportBuilder.
(** The two texts of [buildReport] differ in how they read a trade's volume
    and in the [calcBrokerage] they call. *)
Variable volOf : Trade -> num.
Variable brokerage : Trade -> num.

Definition summarise (g : Group) : ReportGroup :=
  let buyVol := sumBy volOf (buys g) in
  let sellVol := sumBy volOf (sells g) in
  let buyBrk := sumBy brokerage (buys g) in
  let sellBrk := sumBy brokerage (sells g) in
  let totalBrk := (buyBrk + sellBrk)%num in
  let gross := (sellVol - buyVol)%num in
  let net := (gross - totalBrk)%num in
  {| group := g; buyVol := buyVol; sellVol := sellVol; buyBrk := buyBrk;
     sellBrk := sellBrk; totalBrk := totalBrk; gross := gross; net := net |}.

Definition buildReportWith (trades : list Trade) : list ReportGroup :=
  map summarise (JsObject.values (groupTrades trades)).
End ReportBuilder.

(** Grand totals, as the report view and the export compute them. *)
Definition totalGross (report : list ReportGroup) : num := sumBy gross report.
Definition totalBrokerage (report : list ReportGroup) : num := sumBy totalBrk report.
Definition totalNet (report : list ReportGroup) : num := sumBy net report.

(** ** The engine, first text (lines 39-76) *)
Module V1.

(** [parseFloat(trade.Vol) || 0] *)
Definition volOf (t : Trade) : num := or0 (parseFloat (Vol t)).
Definition qtyOf (t : Trade) : num := or0 (parseFloat (Qty t)).

(** [const { lotQty = 1, rate = 40 } = mcxSettings || {}] *)
Definition lotParams (mcxSettings : option Mcx.t) : num * num :=
  match mcxSettings with
  | Some s => (Mcx.lotQty s, Mcx.rate s)
  | None => (of_Z 1, of_Z 40)
  end.

Definition calcBrokerage (trade : Trade) (nseRate : num)
    (mcxMap : gmap string Mcx.t) : num :=
  if String.eqb (Type_ trade) "FORWARD" then zero
  else
    let vol := volOf trade in
    let qty := qtyOf trade in
    let scriptKey := toUpperCase (Script trade) in
    let mcxSettings := mcxMap !! scriptKey in
    if bool_decide (is_Some mcxSettings) || String.eqb (Exchange trade) "MCX"
    then
      let '(lotQty, rate) := lotParams mcxSettings in
      ((qty / lotQty) * rate)%num
    else (vol * (nseRate / of_Z 10000000))%num.

Definition buildReport (trades : list Trade) (nseRate : num)
    (mcxMap : gmap string Mcx.t) : list ReportGroup :=
  buildReportWith volOf (fun t => calcBrokerage t nseRate mcxMap) trades.

End V1.

(** ** The engine, second text (lines 608-670) *)
Module V2.

(** [x || "0"] on an optional string: [undefined] and [""] are falsy. *)
Definition orZeroString (x : option string) : string :=
  match x with
  | Some s => if String.eqb s "" then "0" else s
  | None => "0"
  end.

(** [parseFloat(trade.Vol || "0") || 0] *)
Definition volOf (t : Trade) : num := or0 (parseFloat (Some (orZeroString (Vol t)))).
Definition qtyOf (t : Trade) : num := or0 (parseFloat (Some (orZeroString (Qty t)))).

Definition calcBrokerage (trade : Trade) (nseRate : num)
    (mcxMap : gmap string Mcx.t) : num :=
  if String.eqb (Type_ trade) "FORWARD" then zero
  else
    let vol := volOf trade in
    let qty := qtyOf trade in
    let scriptKey := toUpperCase (Script trade) in
    let mcxSettings := mcxMap !! scriptKey in
    match mcxSettings with
    | Some s =>
        if String.eqb (Exchange trade) "MCX"
        then ((qty / Mcx.lotQty s) * Mcx.rate s)%num
        else (vol * (nseRate / of_Z 10000000))%num
    | None => (vol * (nseRate / of_Z 10000000))%num
    end.

Definition buildReport (trades : list Trade) (nseRate : num)
    (mcxMap : gmap string Mcx.t) : list ReportGroup :=
  buildReportWith volOf (fun t => calcBrokerage t nseRate mcxMap) trades.

End V2.

(** ** The entry form (lines 96-111 and 302-337; 694-712 in the second text) *)

(** [isNaN] *)
Definition isNaN (x : num) : bool :=
  match x with
  | S754_nan => true
  | _ => false
  end.

Definition digit_char (d : Z) : ascii := ascii_of_N (Z.to_N (48 + d)).

(** The decimal digits of [n >= 0] in front of [acc], most significant
    first.  [fuel] bounds the number of digits after the first. *)
Fixpoint decimal_acc (fuel : nat) (n : Z) (acc : string) : string :=
  match fuel with
  | O => String (digit_char n) acc
  | S f =>
      if n <? 10 then String (digit_char n) acc
      else decimal_acc f (n / 10) (String (digit_char (n mod 10)) acc)
  end.

Definition decimal (n : Z) : string := decimal_acc (Z.to_nat (Z.log2 n)) n "".

(** The integer nearest to [m * 2^e * 100], the larger one of two. *)
Definition round2 (m : positive) (e : Z) : Z :=
  if 0 <=? e then Zpos m * 2 ^ e * 100
  else (200 * Zpos m + 2 ^ (- e)) / 2 ^ (1 - e).

(** [m * 2^e >= 10^21] *)
Definition atLeast1e21 (m : positive) (e : Z) : bool :=
  if 0 <=? e then 10 ^ 21 <=? Zpos m * 2 ^ e
  else 10 ^ 21 * 2 ^ (- e) <=? Zpos m.

(** [.replace(/[^A-Z0-9]/g, "")] *)
Definition is_AZ09 (c : ascii) : bool :=
  let n := N_of_ascii c in
  (((48 <=? n) && (n <=? 57)) || ((65 <=? n) && (n <=? 90)))%N.

Fixpoint keepAZ09 (s : string) : string :=
  match s with
  | EmptyString => EmptyString
  | String c r => if is_AZ09 c then String c (keepAZ09 r) else keepAZ09 r
  end.

(** What the Script input hands to [updateTrade]:
    [e.target.value.toUpperCase().replace(/[^A-Z0-9]/g, "")]. *)
Definition scriptInput (raw : string) : string := keepAZ09 (toUpperCase raw).

(** The keys of a trade row. *)
Inductive TradeField :=
  FId | FDate | FAction | FQty | FPrice | FVol | FScript | FType | FExchange.

(** [{ ...r, [field]: val }] *)
Definition setField (r : Trade) (field : TradeField) (val : string) : Trade :=
  match field with
  | FId => {| id_ := val; Date := Date r; Action := Action r; Qty := Qty r;
              Price := Price r; Vol := Vol r; Script := Script r;
              Type_ := Type_ r; Exchange := Exchange r |}
  | FDate => {| id_ := id_ r; Date := val; Action := Action r; Qty := Qty r;
                Price := Price r; Vol := Vol r; Script := Script r;
                Type_ := Type_ r; Exchange := Exchange r |}
  | FAction => {| id_ := id_ r; Date := Date r; Action := val; Qty := Qty r;
                  Price := Price r; Vol := Vol r; Script := Script r;
                  Type_ := Type_ r; Exchange := Exchange r |}
  | FQty => {| id_ := id_ r; Date := Date r; Action := Action r; Qty := Some val;
               Price := Price r; Vol := Vol r; Script := Script r;
               Type_ := Type_ r; Exchange := Exchange r |}
  | FPrice => {| id_ := id_ r; Date := Date r; Action := Action r; Qty := Qty r;
                 Price := val; Vol := Vol r; Script := Script r;
                 Type_ := Type_ r; Exchange := Exchange r |}
  | FVol => {| id_ := id_ r; Date := Date r; Action := Action r; Qty := Qty r;
               Price := Price r; Vol := Some val; Script := Script r;
               Type_ := Type_ r; Exchange := Exchange r |}
  | FScript => {| id_ := id_ r; Date := Date r; Action := Action r; Qty := Qty r;
                  Price := Price r; Vol := Vol r; Script := val;
                  Type_ := Type_ r; Exchange := Exchange r |}
  | FType => {| id_ := id_ r; Date := Date r; Action := Action r; Qty := Qty r;
                Price := Price r; Vol := Vol r; Script := Script r;
                Type_ := val; Exchange := Exchange r |}
  | FExchange => {| id_ := id_ r; Date := Date r; Action := Action r; Qty := Qty r;
                    Price := Price r; Vol := Vol r; Script := Script r;
                    Type_ := Type_ r; Exchange := val |}
  end.

(** [updated.Vol = v] *)
Definition setVol (r : Trade) (v : string) : Trade := setField r FVol v.

Section EntryForm.
(** [Number::toString] on a finite number of 10^21 or more, which is all
    that [toFixed] asks of it here.  ECMAScript leaves its last digit to the
    implementation, so it stays a parameter. *)
Variable bigToString : num -> string.

(** [x.toFixed(2)] *)
Definition toFixed2 (x : num) : string :=
  match x with
  | S754_nan => "NaN"
  | S754_infinity false => "Infinity"
  | S754_infinity true => "-Infinity"
  | S754_zero _ => "0.00"
  | S754_finite s m e =>
      String.append (if s then "-" else "")
        (if atLeast1e21 m e then bigToString (S754_finite false m e)
         else
           let n := round2 m e in
           String.append (decimal (n / 100))
             (String "." (String (digit_char (n mod 100 / 10))
                (String (digit_char (n mod 10)) EmptyString))))
  end.

(** How [updateTrade] reads the field it was not handed: [parseFloat(r.Qty)]
    in the first text, [parseFloat(r.Qty || "0")] in the second. *)
Variable readField : option string -> num.

(** The body of the [map] in [updateTrade]. *)
Definition updateRow (id : string) (field : TradeField) (val : string) (r : Trade) : Trade :=
  if negb (String.eqb (id_ r) id) then r
  else
    let updated := setField r field val in
    match field with
    | FQty =>
        let q := parseFloat (Some val) in
        let p := readField (Some (Price r)) in
        setVol updated
          (if negb (isNaN q) && negb (isNaN p) then toFixed2 (q * p)%num else "")
    | FPrice =>
        let q := readField (Qty r) in
        let p := parseFloat (Some val) in
        setVol updated
          (if negb (isNaN q) && negb (isNaN p) then toFixed2 (q * p)%num else "")
    | _ => updated
    end.

Definition updateTradeWith (id : string) (field : TradeField) (val : string)
    (prev : list Trade) : list Trade :=
  map (updateRow id field val) prev.
End EntryForm.

(** The entry helpers of the first text. *)
Module Form1.
Definition updateTrade (bigToString : num -> string) :=
  updateTradeWith bigToString parseFloat.

(** [addTrade]; the random identifier of the new row is an argument. *)
Definition addTrade (i : string) (p : list Trade) : list Trade := p ++ [defaultRow i].

(** [removeTrade] *)
Definition removeTrade (id : string) (p : list Trade) : list Trade :=
  filter (fun r => id_ r ≠ id) p.
End Form1.

(** The second text: [updateTrade] reads the other field through
    [|| "0"]; [addTrade] and [removeTrade] are those of the first. *)
Module Form2.
Definition updateTrade (bigToString : num -> string) :=
  updateTradeWith bigToString (fun x => parseFloat (Some (V2.orZeroString x))).
End Form2.

(** ** The settings form (lines 113-117 and 372-397) *)

(** [x || 1] *)
Definition or1 (x : num) : num := if truthy x then x else of_Z 1.

(** A field of a schedule row with a value for it: the last two arguments
    of [updateMcx]. *)
Inductive McxEdit :=
| SetScript (v : string)
| SetLotQty (v : num)
| SetRate (v : num).

(** [{ ...s, [field]: val }] *)
Definition applyEdit (e : McxEdit) (s : Mcx.t) : Mcx.t :=
  match e with
  | SetScript v => {| Mcx.script := v; Mcx.lotQty := Mcx.lotQty s; Mcx.rate := Mcx.rate s |}
  | SetLotQty v => {| Mcx.script := Mcx.script s; Mcx.lotQty := v; Mcx.rate := Mcx.rate s |}
  | SetRate v => {| Mcx.script := Mcx.script s; Mcx.lotQty := Mcx.lotQty s; Mcx.rate := v |}
  end.

(** [updateMcx] *)
Definition updateMcx (i : nat) (e : McxEdit) (p : list Mcx.t) : list Mcx.t :=
  imap (fun idx s => if Nat.eqb idx i then applyEdit e s else s) p.

(** [addMcx] *)
Definition addMcx (p : list Mcx.t) : list Mcx.t :=
  p ++ [ {| Mcx.script := ""; Mcx.lotQty := of_Z 1; Mcx.rate := zero |} ].

(** [removeMcx] *)
Definition removeMcx (i : nat) (p : list Mcx.t) : list Mcx.t :=
  (filter (fun x => x.1 ≠ i) (imap (fun idx s => (idx, s)) p)).*2.

(** The settings held by the component: the flat rate and the schedule. *)
Module Settings.
Record t := { nseRate : num; mcxScripts : list Mcx.t }.
End Settings.

Definition initialSettings : Settings.t :=
  {| Settings.nseRate := DEFAULT_NSE_RATE; Settings.mcxScripts := DEFAULT_MCX_SCRIPTS |}.

(** What the user can do on the settings tab; [raw] is the text of the
    input ([e.target.value]). *)
Inductive SettingsAction :=
| TypeNseRate (raw : string)
| TypeScript (i : nat) (raw : string)
| TypeLotQty (i : nat) (raw : string)
| TypeRate (i : nat) (raw : string)
| ClickAddMcx
| ClickRemoveMcx (i : nat).

(** The [onChange] and [onClick] handlers of the settings tab. *)
Definition settingsStep (s : Settings.t) (a : SettingsAction) : Settings.t :=
  let rows := Settings.mcxScripts s in
  match a with
  | TypeNseRate raw =>
      {| Settings.nseRate := or0 (parseFloat (Some raw)); Settings.mcxScripts := rows |}
  | TypeScript i raw =>
      {| Settings.nseRate := Settings.nseRate s;
         Settings.mcxScripts := updateMcx i (SetScript (toUpperCase raw)) rows |}
  | TypeLotQty i raw =>
      {| Settings.nseRate := Settings.nseRate s;
         Settings.mcxScripts := updateMcx i (SetLotQty (or1 (parseFloat (Some raw)))) rows |}
  | TypeRate i raw =>
      {| Settings.nseRate := Settings.nseRate s;
         Settings.mcxScripts := updateMcx i (SetRate (or0 (parseFloat (Some raw)))) rows |}
  | ClickAddMcx =>
      {| Settings.nseRate := Settings.nseRate s; Settings.mcxScripts := addMcx rows |}
  | ClickRemoveMcx i =>
      {| Settings.nseRate := Settings.nseRate s; Settings.mcxScripts := removeMcx i rows |}
  end.

Definition settingsAfter (actions : list SettingsAction) : Settings.t :=
  fold_left settingsStep actions initialSettings.

(** * Vocabulary of the statements *)

(** A row with the fields the engine reads. *)
Definition row (action qty vol sym kind exch : string) : Trade :=
  {| id_ := "r"; Date := ""; Action := action; Qty := Some qty; Price := "";
     Vol := Some vol; Script := sym; Type_ := kind; Exchange := exch |}.

(** [0 <= x]; false on NaN. *)
Definition nonneg (x : num) : Prop := leb zero x = true.

(** [0 < x]; false on NaN. *)
Definition positive (x : num) : Prop := ltb zero x = true.


(** What rounding may return: the sign is the one asked for. *)
Inductive rounded (s : bool) : num -> Prop :=
| rounded_zero : rounded s (S754_zero s)
| rounded_finite m e : rounded s (S754_finite s m e)
| rounded_overflow : rounded s (S754_infinity s).

(** Exponents of finite values stay at or above the least exponent. *)
Definition wf (x : num) : Prop :=
  match x with
  | S754_finite _ _ e => emin prec emax <= e
  | _ => True
  end.

(** -0 *)
Definition neg_zero : num := S754_zero true.

(** One row of the schedule entering the map. *)
Definition mcxInsert (m : gmap string Mcx.t) (s : Mcx.t) : gmap string Mcx.t :=
  <[toUpperCase (Mcx.script s) := s]> m.

(** [t.Action === "BUY"] *)
Definition isBuy (t : Trade) : bool := String.eqb (Action t) "BUY".

(** The group a trade starts when its key is new. *)
Definition freshGroup (t : Trade) : Group :=
  {| script := groupKey t; exchange := Exchange t; buys := []; sells := [] |}.

(** The group after a trade joined it. *)
Definition addTrade (g : Group) (t : Trade) : Group :=
  {| script := script g; exchange := Exchange t;
     buys := if isBuy t then buys g ++ [t] else buys g;
     sells := if isBuy t then sells g else sells g ++ [t] |}.


(** Every property of the object holds a group named after its key. *)
Definition keyed (o : JsObject.t Group) : Prop :=
  forall k g, (k, g) ∈ o -> script g = k.

(** The keys of a list in order of first appearance. *)
Fixpoint firstSeen (ks : list string) : list string :=
  match ks with
  | [] => []
  | k :: r => k :: filter (fun k' => k' ≠ k) (firstSeen r)
  end.

(** The group that [buildReport] forms for the key [k]: none when no trade
    has that key; otherwise the trades of that key, buys and sells apart
    and in their order in the list, under the exchange of the last of
    them. *)
Definition groupOf (k : string) (l : list Trade) : option Group :=
  match last (filter (fun t => groupKey t = k) l) with
  | None => None
  | Some t =>
      Some {| script := k; exchange := Exchange t;
              buys := filter (fun t => groupKey t = k /\ Action t = "BUY") l;
              sells := filter (fun t => groupKey t = k /\ Action t ≠ "BUY") l |}
  end.

(** The number of trades a group holds. *)
Definition groupSize (g : Group) : nat := (length (buys g) + length (sells g))%nat.

Definition isIndexKey (k : string) : Prop := is_Some (JsObject.array_index k).

(** The properties whose key is an array index, each under its index, in
    order of creation. *)
Fixpoint indexed {V : Type} (o : list (string * V)) : list (Z * V) :=
  match o with
  | [] => []
  | (k, v) :: r =>
      match JsObject.array_index k with
      | Some i => (i, v) :: indexed r
      | None => indexed r
      end
  end.

(** A schedule row the engine can divide by: the lot size is neither zero
    nor NaN, the rate is a number, and the symbol is its own uppercase. *)
Definition rowOk (s : Mcx.t) : Prop :=
  truthy (Mcx.lotQty s) = true /\ isNaN (Mcx.rate s) = false /\
  toUpperCase (Mcx.script s) = Mcx.script s.

(** Only the characters A-Z and 0-9. *)
Fixpoint onlyAZ09 (s : string) : bool :=
  match s with
  | EmptyString => true
  | String c r => is_AZ09 c && onlyAZ09 r
  end.

(** What the engine reads of a row: the action and symbol it groups by,
    the kind and exchange it selects the pricing by, and the two numbers it
    computes with. *)
Definition engineView (t : Trade) : string * string * string * string * num * num :=
  (Action t, Script t, Type_ t, Exchange t, V1.qtyOf t, V1.volOf t).

(** The figures of a group of the report: everything but the rows
    themselves. *)
Definition figures (g : ReportGroup) : string * string * list num :=
  (script g, exchange g,
   [buyVol g; sellVol g; buyBrk g; sellBrk g; totalBrk g; gross g; net g]).

(** Two rows the engine reads alike, and two groups with the same symbol
    and exchange whose rows it reads alike. *)
Definition sameView (a b : Trade) : Prop := engineView a = engineView b.

Definition sameGroup (g h : Group) : Prop :=
  script g = script h /\ exchange g = exchange h /\
  Forall2 sameView (buys g) (buys h) /\ Forall2 sameView (sells g) (sells h).

(** Two properties with the same key that hold such groups. *)
Definition sameProp {K : Type} (x y : K * Group) : Prop :=
  x.1 = y.1 /\ sameGroup x.2 y.2.

(** * Lemmas on numbers *)

(** ** Signs of rounded results *)

Section Signs.

Lemma shr_1_nonneg mrs : 0 <= shr_m mrs -> 0 <= shr_m (shr_1 mrs).
Proof.
  destruct mrs as [mm r s]. destruct mm as [|p|p]; simpl; [lia| |lia].
  destruct p; simpl; lia.
Qed.

Lemma iter_shr_1_nonneg p : forall mrs,
  0 <= shr_m mrs -> 0 <= shr_m (SpecFloat.iter_pos shr_1 p mrs).
Proof.
  induction p as [p IH|p IH|]; intros mrs H; simpl.
  - apply IH, IH, shr_1_nonneg, H.
  - apply IH, IH, H.
  - apply shr_1_nonneg, H.
Qed.

Lemma shr_fexp_nonneg mm e l :
  0 <= mm -> 0 <= shr_m (fst (shr_fexp prec emax mm e l)).
Proof.
  intros H. unfold shr_fexp, shr.
  assert (H0 : 0 <= shr_m (shr_record_of_loc mm l)) by (destruct l as [|[]]; exact H).
  destruct (fexp prec emax (Zdigits2 mm + e) - e); simpl; auto.
  now apply iter_shr_1_nonneg.
Qed.

Lemma round_nearest_even_nonneg mm l : 0 <= mm -> 0 <= round_nearest_even mm l.
Proof.
  intros H. destruct l as [|[]]; simpl; try lia.
  destruct (Z.even mm); lia.
Qed.

Lemma binary_round_aux_rounded s mm e l :
  0 <= mm -> rounded s (binary_round_aux prec emax s mm e l).
Proof.
  intros H. unfold binary_round_aux.
  pose proof (shr_fexp_nonneg mm e l H) as H1.
  destruct (shr_fexp prec emax mm e l) as [mrs1 e1]. simpl in H1.
  pose proof (shr_fexp_nonneg _ e1 loc_Exact
                (round_nearest_even_nonneg _ (loc_of_shr_record mrs1) H1)) as H2.
  destruct (shr_fexp prec emax _ e1 loc_Exact) as [mrs2 e2]. simpl in H2.
  destruct (shr_m mrs2) as [|p|p]; [constructor| |lia].
  destruct (e2 <=? emax - prec); constructor.
Qed.

Lemma rounded_nonneg x : rounded false x -> nonneg x.
Proof. intros []; reflexivity. Qed.

Lemma nonneg_inv x :
  nonneg x ->
  (exists s, x = S754_zero s) \/ x = S754_infinity false \/
  (exists mm e, x = S754_finite false mm e).
Proof.
  destruct x as [s|[]| |[] mm e]; unfold nonneg; cbn; try discriminate; eauto.
Qed.

Lemma positive_inv x :
  positive x -> x = S754_infinity false \/ (exists mm e, x = S754_finite false mm e).
Proof.
  destruct x as [s|[]| |[] mm e]; unfold positive; cbn; try discriminate; eauto.
Qed.

Lemma div_core_nonneg m1 e1 m2 e2 :
  0 <= m1 -> 0 < m2 ->
  0 <= fst (fst (SFdiv_core_binary prec emax m1 e1 m2 e2)).
Proof.
  intros H1 H2. unfold SFdiv_core_binary.
  match goal with |- context [Z.div_eucl ?a ?b] =>
    assert (Ha : 0 <= a);
    [| pose proof (Z_div_mod a b ltac:(lia)) as Hd;
       destruct (Z.div_eucl a b) as [q r]; simpl; nia ]
  end.
  destruct (e1 - e2 - _) eqn:E; try lia.
  apply Z.shiftl_nonneg, H1.
Qed.

(** A product of two numbers that are [>= 0] is [>= 0], or NaN (infinity
    times zero). *)
Lemma mul_nonneg x y :
  nonneg x -> nonneg y -> nonneg (x * y)%num \/ (x * y)%num = NaN.
Proof.
  intros Hx Hy.
  destruct (nonneg_inv _ Hx) as [[sx ->]|[->|(mx & ex & ->)]];
    destruct (nonneg_inv _ Hy) as [[sy ->]|[->|(my & ey & ->)]];
    cbn; auto.
  left. apply rounded_nonneg. unfold mul. cbn.
  apply binary_round_aux_rounded. lia.
Qed.

(** A quotient of a number that is [>= 0] by one that is [> 0] is [>= 0],
    or NaN (infinity by infinity). *)
Lemma div_nonneg x y :
  nonneg x -> positive y -> nonneg (x / y)%num \/ (x / y)%num = NaN.
Proof.
  intros Hx Hy.
  destruct (nonneg_inv _ Hx) as [[sx ->]|[->|(mx & ex & ->)]];
    destruct (positive_inv _ Hy) as [->|(my & ey & ->)];
    cbn; auto.
  left. apply rounded_nonneg. unfold div, SFdiv.
  pose proof (div_core_nonneg (Zpos mx) ex (Zpos my) ey ltac:(lia) ltac:(lia)) as H.
  destruct (SFdiv_core_binary prec emax (Z.pos mx) ex (Z.pos my) ey) as [[q e] l].
  apply binary_round_aux_rounded. exact H.
Qed.

Lemma mul_NaN_r x : (x * NaN)%num = NaN.
Proof. destruct x; reflexivity. Qed.

Lemma mul_NaN_l y : (NaN * y)%num = NaN.
Proof. reflexivity. Qed.

Lemma of_Z_1_positive : positive (of_Z 1).
Proof. reflexivity. Qed.

Lemma of_Z_40_nonneg : nonneg (of_Z 40).
Proof. reflexivity. Qed.

Lemma of_Z_1e7_positive : positive (of_Z 10000000).
Proof. reflexivity. Qed.

Lemma zero_nonneg : nonneg zero.
Proof. reflexivity. Qed.


(** The lot-based amount. *)
Lemma lot_amount_sign q d p :
  nonneg q -> positive d -> nonneg p ->
  nonneg ((q / d) * p)%num \/ ((q / d) * p)%num = NaN.
Proof.
  intros Hq Hd Hp.
  destruct (div_nonneg q d Hq Hd) as [H|H].
  - now apply mul_nonneg.
  - right. rewrite H. apply mul_NaN_l.
Qed.

(** The flat-rate amount. *)
Lemma flat_amount_sign v r :
  nonneg v -> nonneg r ->
  nonneg (v * (r / of_Z 10000000))%num \/ (v * (r / of_Z 10000000))%num = NaN.
Proof.
  intros Hv Hr.
  destruct (div_nonneg r _ Hr of_Z_1e7_positive) as [H|H].
  - now apply mul_nonneg.
  - right. rewrite H. apply mul_NaN_r.
Qed.

End Signs.

(** ** Division *)

Section Divisor.





End Divisor.

(** ** Exponents and sums *)

Section Exponents.

Lemma fexp_ge_emin e : emin prec emax <= fexp prec emax e.
Proof. unfold fexp. lia. Qed.

Lemma shr_fexp_exponent mm e l :
  emin prec emax <= e -> emin prec emax <= snd (shr_fexp prec emax mm e l).
Proof.
  intros He. unfold shr_fexp, shr.
  pose proof (fexp_ge_emin (Zdigits2 mm + e)) as Hf.
  destruct (fexp prec emax (Zdigits2 mm + e) - e) eqn:E; simpl; lia.
Qed.

Lemma shr_1_div2 mrs : 0 <= shr_m mrs -> shr_m (shr_1 mrs) = Z.div2 (shr_m mrs).
Proof.
  destruct mrs as [mm r s]. destruct mm as [|p|p]; simpl; [reflexivity| |lia].
  destruct p; reflexivity.
Qed.

Lemma iter_shr_1_shiftr p : forall mrs,
  0 <= shr_m mrs ->
  shr_m (SpecFloat.iter_pos shr_1 p mrs) = Z.shiftr (shr_m mrs) (Zpos p).
Proof.
  induction p as [p IH|p IH|]; intros mrs H; simpl.
  - rewrite IH by (apply iter_shr_1_nonneg, shr_1_nonneg, H).
    rewrite IH by (apply shr_1_nonneg, H).
    rewrite shr_1_div2 by exact H.
    rewrite Z.div2_spec, !Z.shiftr_shiftr by lia.
    f_equal. lia.
  - rewrite IH by (apply iter_shr_1_nonneg, H).
    rewrite IH by exact H.
    rewrite Z.shiftr_shiftr by lia. f_equal. lia.
  - rewrite shr_1_div2 by exact H. apply Z.div2_spec.
Qed.

Lemma digits2_pos_bound p : 2 ^ (Zpos (digits2_pos p) - 1) <= Zpos p.
Proof.
  induction p as [p IH|p IH|]; simpl digits2_pos.
  - rewrite Pos2Z.inj_succ.
    replace (Z.succ (Zpos (digits2_pos p)) - 1) with (Z.succ (Zpos (digits2_pos p) - 1)) by lia.
    rewrite Z.pow_succ_r by lia. lia.
  - rewrite Pos2Z.inj_succ.
    replace (Z.succ (Zpos (digits2_pos p)) - 1) with (Z.succ (Zpos (digits2_pos p) - 1)) by lia.
    rewrite Z.pow_succ_r by lia. lia.
  - reflexivity.
Qed.

Lemma shr_fexp_positive mm e l :
  0 < mm -> emin prec emax <= e -> 0 < shr_m (fst (shr_fexp prec emax mm e l)).
Proof.
  intros Hm He. destruct mm as [|p|p]; try lia.
  unfold shr_fexp, shr.
  assert (H0 : shr_m (shr_record_of_loc (Zpos p) l) = Zpos p) by (destruct l as [|[]]; reflexivity).
  destruct (fexp prec emax (Zdigits2 (Zpos p) + e) - e) as [|n|n] eqn:E; simpl fst;
    try (rewrite H0; lia).
  rewrite iter_shr_1_shiftr by (rewrite H0; lia).
  rewrite H0, Z.shiftr_div_pow2 by lia.
  apply Z.div_str_pos. split; [apply Z.pow_pos_nonneg; lia|].
  etransitivity; [|apply digits2_pos_bound].
  apply Z.pow_le_mono_r; [lia|].
  unfold fexp, Zdigits2 in E. unfold prec in *. lia.
Qed.

Lemma round_nearest_even_ge mm l : mm <= round_nearest_even mm l.
Proof.
  destruct l as [|[]]; simpl; try lia.
  destruct (Z.even mm); lia.
Qed.

(** Rounding keeps the exponent at or above the least one. *)
Lemma binary_round_aux_wf s mm e l :
  emin prec emax <= e -> wf (binary_round_aux prec emax s mm e l).
Proof.
  intros He. unfold binary_round_aux.
  pose proof (shr_fexp_exponent mm e l He) as H1.
  destruct (shr_fexp prec emax mm e l) as [mrs1 e1]. simpl in H1.
  pose proof (shr_fexp_exponent
                (round_nearest_even (shr_m mrs1) (loc_of_shr_record mrs1))
                e1 loc_Exact H1) as H2.
  destruct (shr_fexp prec emax _ e1 loc_Exact) as [mrs2 e2]. simpl in H2.
  destruct (shr_m mrs2); simpl; auto.
  destruct (e2 <=? emax - prec); simpl; auto.
Qed.

(** A mantissa [> 0] at an exponent at or above the least one does not
    round to zero. *)
Lemma binary_round_aux_not_zero s mm e l sz :
  0 < mm -> emin prec emax <= e -> binary_round_aux prec emax s mm e l ≠ S754_zero sz.
Proof.
  intros Hm He. unfold binary_round_aux.
  pose proof (shr_fexp_exponent mm e l He) as H1.
  pose proof (shr_fexp_positive mm e l Hm He) as P1.
  destruct (shr_fexp prec emax mm e l) as [mrs1 e1]. simpl in H1, P1.
  pose proof (round_nearest_even_ge (shr_m mrs1) (loc_of_shr_record mrs1)) as Hr.
  pose proof (shr_fexp_positive
                (round_nearest_even (shr_m mrs1) (loc_of_shr_record mrs1))
                e1 loc_Exact ltac:(lia) H1) as P2.
  destruct (shr_fexp prec emax _ e1 loc_Exact) as [mrs2 e2]. simpl in P2.
  destruct (shr_m mrs2); try lia.
  destruct (e2 <=? emax - prec); discriminate.
Qed.

Lemma shl_align_exponent mx ex ex' :
  emin prec emax <= ex -> emin prec emax <= ex' ->
  emin prec emax <= snd (shl_align mx ex ex').
Proof.
  intros H H'. unfold shl_align. destruct (ex' - ex); simpl; lia.
Qed.

Lemma binary_round_wf s mx ex :
  emin prec emax <= ex ->
  wf (binary_round prec emax s mx ex) /\
  forall sz, binary_round prec emax s mx ex ≠ S754_zero sz.
Proof.
  intros He. unfold binary_round.
  pose proof (shl_align_exponent mx ex (fexp prec emax (Zpos (digits2_pos mx) + ex))
                He (fexp_ge_emin _)) as H.
  destruct (shl_align mx ex _) as [mz ez]. simpl in H. split.
  - now apply binary_round_aux_wf.
  - intros sz. apply binary_round_aux_not_zero; [lia | exact H].
Qed.

Lemma binary_normalize_wf mm e :
  emin prec emax <= e ->
  wf (binary_normalize prec emax mm e false) /\
  binary_normalize prec emax mm e false ≠ neg_zero.
Proof.
  intros He. destruct mm as [|p|p]; simpl.
  - split; [exact I | discriminate].
  - destruct (binary_round_wf false p e He) as [H1 H2]. split; [exact H1 | apply H2].
  - destruct (binary_round_wf true p e He) as [H1 H2]. split; [exact H1 | apply H2].
Qed.

(** A sum is never -0 unless both terms are. *)
Lemma add_wf x y :
  wf x -> wf y -> x ≠ neg_zero -> wf (x + y)%num /\ (x + y)%num ≠ neg_zero.
Proof.
  intros Hx Hy Hn.
  destruct x as [sx|sx| |sx mx ex], y as [sy|sy| |sy my ey];
    try (split; [exact I | discriminate]);
    try (split; [assumption | discriminate]).
  - destruct sx; [now contradiction Hn|]. destruct sy; split; try exact I; discriminate.
  - destruct sx, sy; split; try exact I; discriminate.
  - unfold add, SFadd. apply binary_normalize_wf. simpl in Hx, Hy. lia.
Qed.

Lemma add_zero_r x : x ≠ neg_zero -> (x + zero)%num = x.
Proof.
  destruct x as [[]| | |]; try reflexivity. intros H. now contradiction H.
Qed.




(** A running sum that starts from +0 is never -0. *)
Lemma sumBy_wf {A} (f : A -> num) (l : list A) :
  (forall x, wf (f x)) -> wf (sumBy f l) /\ sumBy f l ≠ neg_zero.
Proof.
  intros Hf. unfold sumBy.
  induction l as [|a l IH] using rev_ind.
  - split; [exact I | discriminate].
  - rewrite fold_left_app. simpl. destruct IH as [H1 H2].
    now apply add_wf.
Qed.


Lemma sumBy_snoc {A} (f : A -> num) (l : list A) (a : A) :
  sumBy f (l ++ [a]) = (sumBy f l + f a)%num.
Proof. unfold sumBy. now rewrite fold_left_app. Qed.

Lemma sumBy_ext {A} (f g : A -> num) (l : list A) :
  (forall x, x ∈ l -> f x = g x) -> sumBy f l = sumBy g l.
Proof.
  intros H. unfold sumBy.
  induction l as [|a l IH] using rev_ind; [reflexivity|].
  rewrite !fold_left_app. simpl. rewrite IH.
  - rewrite H; [reflexivity|]. apply elem_of_app. right. apply list_elem_of_here.
  - intros x Hx. apply H. apply elem_of_app. now left.
Qed.

End Exponents.

(** * Lemmas on the brokerage calculator *)

Section CalcFacts.
Implicit Types (t : Trade) (r : num) (m : gmap string Mcx.t).

Lemma not_forward t : Type_ t ≠ "FORWARD" -> String.eqb (Type_ t) "FORWARD" = false.
Proof. intros H. now apply String.eqb_neq. Qed.

Lemma mcx_exchange t : Exchange t = "MCX" -> String.eqb (Exchange t) "MCX" = true.
Proof. intros H. now apply String.eqb_eq. Qed.

Lemma not_mcx_exchange t : Exchange t ≠ "MCX" -> String.eqb (Exchange t) "MCX" = false.
Proof. intros H. now apply String.eqb_neq. Qed.

Lemma V1_forward t r m : Type_ t = "FORWARD" -> V1.calcBrokerage t r m = zero.
Proof. intros H. unfold V1.calcBrokerage. now rewrite H. Qed.

Lemma V2_forward t r m : Type_ t = "FORWARD" -> V2.calcBrokerage t r m = zero.
Proof. intros H. unfold V2.calcBrokerage. now rewrite H. Qed.

(** The first text with a schedule entry: lot-based, whatever the exchange. *)
Lemma V1_entry t r m s :
  Type_ t ≠ "FORWARD" -> m !! toUpperCase (Script t) = Some s ->
  V1.calcBrokerage t r m = ((V1.qtyOf t / Mcx.lotQty s) * Mcx.rate s)%num.
Proof.
  intros Hf Hs. unfold V1.calcBrokerage.
  rewrite (not_forward _ Hf), Hs. reflexivity.
Qed.

(** The first text without an entry, exchange MCX: the defaults 1 and 40. *)
Lemma V1_default t r m :
  Type_ t ≠ "FORWARD" -> m !! toUpperCase (Script t) = None -> Exchange t = "MCX" ->
  V1.calcBrokerage t r m = ((V1.qtyOf t / of_Z 1) * of_Z 40)%num.
Proof.
  intros Hf Hn Hx. unfold V1.calcBrokerage.
  rewrite (not_forward _ Hf), Hn, (mcx_exchange _ Hx). reflexivity.
Qed.

Lemma V1_flat t r m :
  Type_ t ≠ "FORWARD" -> m !! toUpperCase (Script t) = None -> Exchange t ≠ "MCX" ->
  V1.calcBrokerage t r m = (V1.volOf t * (r / of_Z 10000000))%num.
Proof.
  intros Hf Hn Hx. unfold V1.calcBrokerage.
  rewrite (not_forward _ Hf), Hn, (not_mcx_exchange _ Hx). reflexivity.
Qed.

Lemma V2_lot t r m s :
  Type_ t ≠ "FORWARD" -> m !! toUpperCase (Script t) = Some s -> Exchange t = "MCX" ->
  V2.calcBrokerage t r m = ((V2.qtyOf t / Mcx.lotQty s) * Mcx.rate s)%num.
Proof.
  intros Hf Hs Hx. unfold V2.calcBrokerage.
  rewrite (not_forward _ Hf), Hs, (mcx_exchange _ Hx). reflexivity.
Qed.

Lemma V2_flat t r m :
  Type_ t ≠ "FORWARD" ->
  m !! toUpperCase (Script t) = None \/ Exchange t ≠ "MCX" ->
  V2.calcBrokerage t r m = (V2.volOf t * (r / of_Z 10000000))%num.
Proof.
  intros Hf H. unfold V2.calcBrokerage. rewrite (not_forward _ Hf).
  destruct (m !! toUpperCase (Script t)) as [s|]; [|reflexivity].
  destruct H as [H|H]; [discriminate|].
  rewrite (not_mcx_exchange _ H). reflexivity.
Qed.

(** [parseFloat(x || "0") || 0] and [parseFloat(x) || 0] are the same
    number: an empty or missing field reads as 0 either way. *)
Lemma parse_or_zero (x : option string) :
  or0 (parseFloat (Some (V2.orZeroString x))) = or0 (parseFloat x).
Proof.
  destruct x as [s|]; [|reflexivity].
  unfold V2.orZeroString. destruct (String.eqb_spec s "") as [->|_]; reflexivity.
Qed.

Lemma volOf_agree t : V2.volOf t = V1.volOf t.
Proof. apply parse_or_zero. Qed.

Lemma qtyOf_agree t : V2.qtyOf t = V1.qtyOf t.
Proof. apply parse_or_zero. Qed.

End CalcFacts.

(** ** The lot schedule as a map *)

Section McxMap.
Implicit Types (l : list Mcx.t) (m : gmap string Mcx.t) (k : string).

Lemma mcxMap_fold l : mcxMap l = fold_left mcxInsert l ∅.
Proof. reflexivity. Qed.

(** Whatever is found was put there by a row of the list, under the
    uppercased symbol of that row, or was there before. *)
Lemma fold_mcxInsert_lookup l : forall m k s,
  fold_left mcxInsert l m !! k = Some s ->
  (s ∈ l /\ toUpperCase (Mcx.script s) = k) \/ m !! k = Some s.
Proof.
  induction l as [|a l IH]; intros m k s H; simpl in H; [now right|].
  apply IH in H as [[Hin Hk]|H].
  - left. split; [now apply list_elem_of_further | exact Hk].
  - unfold mcxInsert in H.
    destruct (decide (toUpperCase (Mcx.script a) = k)) as [Heq|Hne].
    + subst k. rewrite lookup_insert_eq in H. injection H as ->.
      left. split; [apply list_elem_of_here | reflexivity].
    + rewrite lookup_insert_ne in H by exact Hne. now right.
Qed.



Lemma mcxMap_lookup l k s :
  mcxMap l !! k = Some s -> s ∈ l /\ toUpperCase (Mcx.script s) = k.
Proof.
  intros H. rewrite mcxMap_fold in H.
  apply fold_mcxInsert_lookup in H as [H|H]; [exact H|].
  rewrite lookup_empty in H. discriminate.
Qed.


(** Uppercasing is idempotent, so a stored key is its own normal form. *)
Lemma upper_char_idem c : upper_char (upper_char c) = upper_char c.
Proof.
  destruct c as [[] [] [] [] [] [] [] []]; reflexivity.
Qed.

Lemma toUpperCase_idem (s : string) : toUpperCase (toUpperCase s) = toUpperCase s.
Proof.
  induction s as [|c s IH]; simpl; [reflexivity|].
  now rewrite upper_char_idem, IH.
Qed.

Lemma default_schedule_sound k s :
  mcxMap DEFAULT_MCX_SCRIPTS !! k = Some s ->
  positive (Mcx.lotQty s) /\ nonneg (Mcx.rate s).
Proof.
  intros H. apply mcxMap_lookup in H as [H _].
  unfold DEFAULT_MCX_SCRIPTS in H.
  repeat (apply elem_of_cons in H as [->|H]; [split; reflexivity|]).
  now apply elem_of_nil in H.
Qed.

End McxMap.

(** * Lemmas on the report builder *)

(** ** Objects *)

Section ObjectFacts.
Context {V : Type}.
Implicit Types (o : JsObject.t V) (k : string) (v : V).

Lemma get_set_eq o k v : JsObject.get (JsObject.set o k v) k = Some v.
Proof.
  induction o as [|[k' v'] o IH]; simpl.
  - now rewrite String.eqb_refl.
  - destruct (String.eqb_spec k' k) as [->|Hne]; simpl.
    + now rewrite String.eqb_refl.
    + destruct (String.eqb_spec k' k); [contradiction | exact IH].
Qed.

Lemma get_set_ne o k k' v :
  k ≠ k' -> JsObject.get (JsObject.set o k v) k' = JsObject.get o k'.
Proof.
  intros Hne. induction o as [|[k0 v0] o IH]; simpl.
  - destruct (String.eqb_spec k k'); [contradiction | reflexivity].
  - destruct (String.eqb_spec k0 k) as [->|H0]; simpl.
    + destruct (String.eqb_spec k k'); [contradiction | reflexivity].
    + now rewrite IH.
Qed.

Lemma get_elem o k v : JsObject.get o k = Some v -> (k, v) ∈ o.
Proof.
  induction o as [|[k' v'] o IH]; simpl; [discriminate|].
  destruct (String.eqb_spec k' k) as [->|Hne].
  - intros [= ->]. apply list_elem_of_here.
  - intros H. apply list_elem_of_further, IH, H.
Qed.

(** The keys after an assignment: a new key goes last. *)
Lemma keys_set o k v :
  (JsObject.set o k v).*1 = if decide (k ∈ o.*1) then o.*1 else o.*1 ++ [k].
Proof.
  induction o as [|[k' v'] o IH].
  - reflexivity.
  - cbn [JsObject.set]. destruct (String.eqb_spec k' k) as [->|Hne].
    + clear IH. rewrite !fmap_cons. cbn [fst].
      destruct (decide (k ∈ k :: o.*1)) as [_|H]; [reflexivity|].
      exfalso. apply H, list_elem_of_here.
    + rewrite !fmap_cons, IH. cbn [fst]. clear IH.
      destruct (decide (k ∈ o.*1)) as [Hin|Hin];
        destruct (decide (k ∈ k' :: o.*1)) as [Hin'|Hin']; try reflexivity.
      * exfalso. apply Hin'. now apply list_elem_of_further.
      * exfalso. apply elem_of_cons in Hin' as [->|Hin']; contradiction.
Qed.

Lemma set_elem o k v (x : string * V) :
  x ∈ JsObject.set o k v -> x = (k, v) \/ x ∈ o.
Proof.
  induction o as [|[k' v'] o IH]; simpl.
  - intros H. apply list_elem_of_singleton in H. now left.
  - destruct (String.eqb_spec k' k) as [->|Hne]; intros H;
      apply elem_of_cons in H as [->|H]; auto.
    + right. now apply list_elem_of_further.
    + right. apply list_elem_of_here.
    + destruct (IH H) as [->|H']; auto. right. now apply list_elem_of_further.
Qed.

Lemma insert_index_elem (i : Z) v (l : list (Z * V)) (x : Z * V) :
  x ∈ JsObject.insert_index i v l <-> x = (i, v) \/ x ∈ l.
Proof.
  induction l as [|[j w] l IH]; simpl.
  - rewrite list_elem_of_singleton, elem_of_nil. tauto.
  - destruct (i <? j).
    + now rewrite elem_of_cons.
    + rewrite !elem_of_cons, IH. tauto.
Qed.

Lemma index_props_elem o k v i :
  (k, v) ∈ o -> JsObject.array_index k = Some i -> (i, v) ∈ JsObject.index_props o.
Proof.
  intros Hin Hi. induction o as [|[k' v'] o IH]; [now apply elem_of_nil in Hin|].
  apply elem_of_cons in Hin as [[= <- <-]|Hin]; simpl.
  - rewrite Hi. apply insert_index_elem. now left.
  - destruct (JsObject.array_index k'); [|now apply IH].
    apply insert_index_elem. right. now apply IH.
Qed.

Lemma string_props_elem o k v :
  (k, v) ∈ o -> JsObject.array_index k = None -> v ∈ JsObject.string_props o.
Proof.
  intros Hin Hi. induction o as [|[k' v'] o IH]; [now apply elem_of_nil in Hin|].
  apply elem_of_cons in Hin as [[= <- <-]|Hin]; simpl.
  - rewrite Hi. apply list_elem_of_here.
  - destruct (JsObject.array_index k'); [now apply IH|].
    apply list_elem_of_further. now apply IH.
Qed.

(** Every property value is enumerated. *)
Lemma values_elem o k v : (k, v) ∈ o -> v ∈ JsObject.values o.
Proof.
  intros Hin. unfold JsObject.values. apply elem_of_app.
  destruct (JsObject.array_index k) as [i|] eqn:Hi.
  - left. apply (list_elem_of_fmap_2 snd _ (i, v)). now apply index_props_elem with k.
  - right. now apply string_props_elem with k.
Qed.

(** Without array-index keys the enumeration is the order of creation. *)
Lemma values_creation_order o :
  (forall k, k ∈ o.*1 -> JsObject.array_index k = None) ->
  JsObject.values o = o.*2.
Proof.
  intros H. unfold JsObject.values.
  induction o as [|[k v] o IH]; [reflexivity|].
  simpl. rewrite (H k) by apply list_elem_of_here.
  assert (Ho : forall k0, k0 ∈ o.*1 -> JsObject.array_index k0 = None).
  { intros k0 Hk0. apply H. now apply list_elem_of_further. }
  specialize (IH Ho).
  assert (Hnil : JsObject.index_props o = []).
  { clear IH. induction o as [|[k1 v1] o IH1]; [reflexivity|].
    simpl. rewrite (Ho k1) by apply list_elem_of_here.
    apply IH1.
    - intros k0 Hk0. apply H. apply elem_of_cons in Hk0 as [->|Hk0].
      + apply list_elem_of_here.
      + now apply list_elem_of_further, list_elem_of_further.
    - intros k0 Hk0. apply Ho. now apply list_elem_of_further. }
  rewrite Hnil in *. simpl in *. now rewrite IH.
Qed.

End ObjectFacts.

(** ** Grouping *)

Section Grouping.
Implicit Types (o : JsObject.t Group) (t : Trade) (g : Group) (l : list Trade).

Lemma groupStep_set o t :
  groupStep o t =
  JsObject.set o (groupKey t)
    (addTrade (default (freshGroup t) (JsObject.get o (groupKey t))) t).
Proof.
  unfold groupStep, addTrade, isBuy.
  destruct (JsObject.get o (groupKey t)) as [g|]; simpl;
    destruct (String.eqb (Action t) "BUY"); reflexivity.
Qed.

Lemma groupTrades_snoc l t : groupTrades (l ++ [t]) = groupStep (groupTrades l) t.
Proof. unfold groupTrades. now rewrite fold_left_app. Qed.

Lemma groupStep_get_same o t :
  JsObject.get (groupStep o t) (groupKey t)
  = Some (addTrade (default (freshGroup t) (JsObject.get o (groupKey t))) t).
Proof. rewrite groupStep_set. apply get_set_eq. Qed.

Lemma groupStep_get_other o t k :
  groupKey t ≠ k -> JsObject.get (groupStep o t) k = JsObject.get o k.
Proof. intros H. rewrite groupStep_set. now apply get_set_ne. Qed.



Lemma groupStep_keyed o t : keyed o -> keyed (groupStep o t).
Proof.
  intros Ho k g H. rewrite groupStep_set in H.
  apply set_elem in H as [[= -> ->]|H]; [|now apply Ho].
  simpl. destruct (JsObject.get o (groupKey t)) as [g0|] eqn:Hg; simpl; [|reflexivity].
  apply Ho. now apply get_elem.
Qed.

Lemma groupTrades_keyed l : keyed (groupTrades l).
Proof.
  induction l as [|t l IH] using rev_ind.
  - intros k g H. now apply elem_of_nil in H.
  - rewrite groupTrades_snoc. now apply groupStep_keyed.
Qed.


Lemma firstSeen_elem ks k : k ∈ firstSeen ks <-> k ∈ ks.
Proof.
  induction ks as [|a ks IH]; simpl; [reflexivity|].
  rewrite !elem_of_cons, list_elem_of_filter, IH.
  destruct (decide (k = a)); tauto.
Qed.

Lemma firstSeen_snoc ks k :
  firstSeen (ks ++ [k]) = if decide (k ∈ firstSeen ks) then firstSeen ks else firstSeen ks ++ [k].
Proof.
  induction ks as [|a ks IH]; simpl; [reflexivity|].
  rewrite IH. clear IH.
  destruct (decide (k ∈ firstSeen ks)) as [Hin|Hin].
  - destruct (decide (k ∈ a :: filter (fun k' => k' ≠ a) (firstSeen ks))) as [_|H];
      [reflexivity|].
    exfalso. apply H. apply elem_of_cons.
    destruct (decide (k = a)) as [->|Hne]; [now left|right].
    apply list_elem_of_filter. split; assumption.
  - rewrite filter_app.
    destruct (decide (k ∈ a :: filter (fun k' => k' ≠ a) (firstSeen ks))) as [H|H].
    + apply elem_of_cons in H as [->|H].
      * rewrite filter_cons_False by (intros Hc; now apply Hc).
        now rewrite filter_nil, app_nil_r.
      * apply list_elem_of_filter in H as [_ H]. contradiction.
    + rewrite filter_cons_True.
      * reflexivity.
      * intros ->. apply H, list_elem_of_here.
Qed.

Lemma groupTrades_keys l : (groupTrades l).*1 = firstSeen (groupKey <$> l).
Proof.
  induction l as [|t l IH] using rev_ind; [reflexivity|].
  rewrite groupTrades_snoc, groupStep_set, keys_set, fmap_app, IH.
  simpl. now rewrite firstSeen_snoc.
Qed.

Lemma keyed_scripts o : keyed o -> script <$> o.*2 = o.*1.
Proof.
  intros H. induction o as [|[k g] o IH]; [reflexivity|].
  rewrite !fmap_cons. simpl. f_equal.
  - apply H. apply list_elem_of_here.
  - apply IH. intros k' g' Hin. apply H. now apply list_elem_of_further.
Qed.

End Grouping.

(** ** Reports *)

Section Reports.
Variable volOf : Trade -> num.
Variable brokerage : Trade -> num.
Implicit Types (l : list Trade) (t : Trade).

Lemma buildReportWith_groups l :
  group <$> buildReportWith volOf brokerage l = JsObject.values (groupTrades l).
Proof.
  unfold buildReportWith.
  induction (JsObject.values (groupTrades l)) as [|g r IH]; [reflexivity|].
  rewrite !fmap_cons. simpl. f_equal. exact IH.
Qed.

Lemma report_scripts (r : list ReportGroup) :
  (fun g : ReportGroup => script g) <$> r = script <$> (group <$> r).
Proof.
  induction r as [|g r IH]; [reflexivity|].
  rewrite !fmap_cons. f_equal. exact IH.
Qed.


(** The sums of a group are those of its lists, and the three derived
    fields are one operation each. *)
Lemma buildReportWith_sums l (g : ReportGroup) :
  g ∈ buildReportWith volOf brokerage l ->
  buyVol g = sumBy volOf (buys g) /\ sellVol g = sumBy volOf (sells g) /\
  buyBrk g = sumBy brokerage (buys g) /\ sellBrk g = sumBy brokerage (sells g) /\
  totalBrk g = (buyBrk g + sellBrk g)%num /\
  gross g = (sellVol g - buyVol g)%num /\
  net g = (gross g - totalBrk g)%num.
Proof.
  intros H. apply list_elem_of_fmap in H as (g0 & -> & _).
  repeat split.
Qed.

(** Without array-index keys the groups come in order of first
    appearance. *)
Lemma buildReportWith_order l :
  (forall t, t ∈ l -> JsObject.array_index (groupKey t) = None) ->
  (fun g : ReportGroup => script g) <$> buildReportWith volOf brokerage l
  = firstSeen (groupKey <$> l).
Proof.
  intros H.
  rewrite report_scripts, buildReportWith_groups.
  rewrite values_creation_order.
  - rewrite keyed_scripts by apply groupTrades_keyed. apply groupTrades_keys.
  - intros k Hk. rewrite groupTrades_keys in Hk.
    apply firstSeen_elem, list_elem_of_fmap in Hk as (t & -> & Ht). now apply H.
Qed.

End Reports.

(** * The brokerage calculator *)

(** C1 as stated fails for the second text of [calcBrokerage]: there the
    exchange MCX alone does not select the pricing by lot and there are no
    defaults, so quantity 10 on exchange MCX without a schedule entry costs
    the flat amount 15.599999999999998 and not 400; nor does an entry alone
    select it: gold on exchange NSE costs the flat amount 0.3 and not
    (10 / 1) * 30 = 300. *)
Lemma lot_based_selection_second_text :
  let m := mcxMap DEFAULT_MCX_SCRIPTS in
  let zinc := row "BUY" "10" "52000" "zinc" "NORMAL" "MCX" in
  let gold := row "BUY" "10" "1000" "gold" "NORMAL" "NSE" in
  m !! toUpperCase (Script zinc) = None /\
  V2.calcBrokerage zinc DEFAULT_NSE_RATE m = parseFloat (Some "15.599999999999998") /\
  V1.calcBrokerage zinc DEFAULT_NSE_RATE m = of_Z 400 /\
  Mcx.lotQty <$> m !! toUpperCase (Script gold) = Some (of_Z 1) /\
  Mcx.rate <$> m !! toUpperCase (Script gold) = Some (of_Z 30) /\
  V2.calcBrokerage gold DEFAULT_NSE_RATE m = parseFloat (Some "0.3") /\
  V1.calcBrokerage gold DEFAULT_NSE_RATE m = of_Z 300.
Proof. vm_compute. repeat split. Qed.

(** C1, as amended: for a trade that is not FORWARD the first text of
    [calcBrokerage] prices by lot, (quantity / lot size) * rate per lot,
    exactly when the schedule has an entry under the uppercased symbol or
    the exchange is MCX: with an entry its lot size and rate are used,
    without one and with exchange MCX the defaults 1 and 40 (quantity 10
    costs 400), and without one on another exchange the flat rate applies.
    The second text prices by lot exactly when the schedule has an entry
    and the exchange is MCX, with the lot size and rate of the entry; it has
    no defaults, and without an entry or on another exchange the flat rate
    applies. *)
Theorem lot_based_selection (t : Trade) (nseRate : num) (m : gmap string Mcx.t) :
  Type_ t ≠ "FORWARD" ->
  (forall s, m !! toUpperCase (Script t) = Some s ->
     V1.calcBrokerage t nseRate m = ((V1.qtyOf t / Mcx.lotQty s) * Mcx.rate s)%num) /\
  (m !! toUpperCase (Script t) = None -> Exchange t = "MCX" ->
     V1.calcBrokerage t nseRate m = ((V1.qtyOf t / of_Z 1) * of_Z 40)%num) /\
  (m !! toUpperCase (Script t) = None -> Exchange t = "MCX" ->
     V1.qtyOf t = of_Z 10 -> V1.calcBrokerage t nseRate m = of_Z 400) /\
  (m !! toUpperCase (Script t) = None -> Exchange t ≠ "MCX" ->
     V1.calcBrokerage t nseRate m = (V1.volOf t * (nseRate / of_Z 10000000))%num) /\
  (forall s, m !! toUpperCase (Script t) = Some s -> Exchange t = "MCX" ->
     V2.calcBrokerage t nseRate m = ((V2.qtyOf t / Mcx.lotQty s) * Mcx.rate s)%num) /\
  (m !! toUpperCase (Script t) = None \/ Exchange t ≠ "MCX" ->
     V2.calcBrokerage t nseRate m = (V2.volOf t * (nseRate / of_Z 10000000))%num).
Proof.
  intros Hf. split; [|split; [|split; [|split; [|split]]]].
  - intros s Hs. now apply V1_entry.
  - intros Hn Hx. now apply V1_default.
  - intros Hn Hx Hq. rewrite V1_default by assumption. rewrite Hq.
    vm_compute. reflexivity.
  - intros Hn Hx. now apply V1_flat.
  - intros s Hs Hx. now apply V2_lot.
  - intros H. now apply V2_flat.
Qed.

Lemma lot_based_selection_witness :
  let t := row "BUY" "10" "52000" "zinc" "NORMAL" "MCX" in
  Type_ t ≠ "FORWARD" /\
  V1.calcBrokerage t DEFAULT_NSE_RATE (mcxMap DEFAULT_MCX_SCRIPTS) = of_Z 400 /\
  V2.calcBrokerage t DEFAULT_NSE_RATE (mcxMap DEFAULT_MCX_SCRIPTS)
  = (V2.volOf t * (DEFAULT_NSE_RATE / of_Z 10000000))%num.
Proof.
  cbv zeta.
  assert (Hf : Type_ (row "BUY" "10" "52000" "zinc" "NORMAL" "MCX") ≠ "FORWARD")
    by discriminate.
  destruct (lot_based_selection (row "BUY" "10" "52000" "zinc" "NORMAL" "MCX")
              DEFAULT_NSE_RATE (mcxMap DEFAULT_MCX_SCRIPTS) Hf)
    as (_ & _ & H400 & _ & _ & Hflat).
  split; [exact Hf|]. split.
  - apply H400; vm_compute; reflexivity.
  - apply Hflat. left. vm_compute. reflexivity.
Defined.

(** C2 as stated fails: a negative quantity on exchange MCX gives a negative
    brokerage, -400 for quantity -10 with the default lot size and rate. *)
Lemma brokerage_negative :
  let t := row "BUY" "-10" "-52000" "zinc" "NORMAL" "MCX" in
  V1.calcBrokerage t DEFAULT_NSE_RATE (mcxMap DEFAULT_MCX_SCRIPTS) = parseFloat (Some "-400") /\
  ltb (V1.calcBrokerage t DEFAULT_NSE_RATE (mcxMap DEFAULT_MCX_SCRIPTS)) zero = true /\
  leb zero (V1.calcBrokerage t DEFAULT_NSE_RATE (mcxMap DEFAULT_MCX_SCRIPTS)) = false.
Proof. vm_compute. repeat split. Qed.

(** A negative volume does the same under the flat rate, in both texts. *)
Example brokerage_negative_flat :
  let t := row "SELL" "-10" "-500000" "infy" "NORMAL" "NSE" in
  V1.calcBrokerage t DEFAULT_NSE_RATE (mcxMap DEFAULT_MCX_SCRIPTS) = parseFloat (Some "-150") /\
  V2.calcBrokerage t DEFAULT_NSE_RATE (mcxMap DEFAULT_MCX_SCRIPTS) = parseFloat (Some "-150").
Proof. vm_compute. split; reflexivity. Qed.

(** So does a negative lot size. *)
Example brokerage_negative_lot :
  let t := row "BUY" "10" "52000" "zinc" "NORMAL" "MCX" in
  let m := mcxMap [ {| Mcx.script := "ZINC"; Mcx.lotQty := parseFloat (Some "-5");
                       Mcx.rate := of_Z 40 |} ] in
  V1.calcBrokerage t DEFAULT_NSE_RATE m = parseFloat (Some "-80") /\
  V2.calcBrokerage t DEFAULT_NSE_RATE m = parseFloat (Some "-80").
Proof. vm_compute. split; reflexivity. Qed.

(** An infinite quantity at rate 0 gives NaN, which is neither negative nor
    [>= 0]. *)
Example brokerage_NaN :
  let t := row "BUY" "Infinity" "" "zinc" "NORMAL" "MCX" in
  let m := mcxMap [ {| Mcx.script := "ZINC"; Mcx.lotQty := of_Z 1; Mcx.rate := zero |} ] in
  V1.calcBrokerage t DEFAULT_NSE_RATE m = NaN /\ V2.calcBrokerage t DEFAULT_NSE_RATE m = NaN.
Proof. vm_compute. split; reflexivity. Qed.

(** C2, as amended: when the quantity and the volume read from the trade are
    [>= 0], the flat rate is [>= 0] and the schedule entry of the trade, if
    any, has a lot size [> 0] and a rate [>= 0], both texts of
    [calcBrokerage] return a number that is [>= 0] or NaN, never a negative
    one. *)
Theorem brokerage_nonnegative (t : Trade) (nseRate : num) (m : gmap string Mcx.t) :
  nonneg (V1.qtyOf t) -> nonneg (V1.volOf t) -> nonneg nseRate ->
  (forall s, m !! toUpperCase (Script t) = Some s ->
     positive (Mcx.lotQty s) /\ nonneg (Mcx.rate s)) ->
  (nonneg (V1.calcBrokerage t nseRate m) \/ V1.calcBrokerage t nseRate m = NaN) /\
  (nonneg (V2.calcBrokerage t nseRate m) \/ V2.calcBrokerage t nseRate m = NaN).
Proof.
  intros Hq Hv Hr Hm.
  destruct (String.eqb_spec (Type_ t) "FORWARD") as [Hf|Hf].
  { rewrite V1_forward, V2_forward by exact Hf.
    split; left; exact zero_nonneg. }
  destruct (m !! toUpperCase (Script t)) as [s|] eqn:Hs.
  - destruct (Hm s eq_refl) as [Hd Hp]. split.
    + rewrite (V1_entry t nseRate m s Hf Hs). now apply lot_amount_sign.
    + destruct (String.eqb_spec (Exchange t) "MCX") as [Hx|Hx].
      * rewrite (V2_lot t nseRate m s Hf Hs Hx), qtyOf_agree. now apply lot_amount_sign.
      * rewrite V2_flat, volOf_agree by auto. now apply flat_amount_sign.
  - split.
    + destruct (String.eqb_spec (Exchange t) "MCX") as [Hx|Hx].
      * rewrite (V1_default t nseRate m Hf Hs Hx).
        apply lot_amount_sign; [exact Hq | exact of_Z_1_positive | exact of_Z_40_nonneg].
      * rewrite (V1_flat t nseRate m Hf Hs Hx). now apply flat_amount_sign.
    + rewrite V2_flat, volOf_agree by auto. now apply flat_amount_sign.
Qed.

Lemma brokerage_nonnegative_witness :
  let t := row "BUY" "200" "1300000" "crudeoil" "NORMAL" "MCX" in
  let m := mcxMap DEFAULT_MCX_SCRIPTS in
  nonneg (V1.qtyOf t) /\ nonneg (V1.volOf t) /\ nonneg DEFAULT_NSE_RATE /\
  ((nonneg (V1.calcBrokerage t DEFAULT_NSE_RATE m) \/ V1.calcBrokerage t DEFAULT_NSE_RATE m = NaN) /\
   (nonneg (V2.calcBrokerage t DEFAULT_NSE_RATE m) \/ V2.calcBrokerage t DEFAULT_NSE_RATE m = NaN)).
Proof.
  split; [reflexivity|]. split; [reflexivity|]. split; [reflexivity|].
  apply (brokerage_nonnegative (row "BUY" "200" "1300000" "crudeoil" "NORMAL" "MCX")
           DEFAULT_NSE_RATE (mcxMap DEFAULT_MCX_SCRIPTS)).
  - reflexivity.
  - reflexivity.
  - reflexivity.
  - intros s H. exact (default_schedule_sound _ s H).
Defined.

(** C3: a trade whose kind is FORWARD costs exactly 0 in both texts of
    [calcBrokerage], whatever its exchange, symbol, quantity and volume and
    whatever the flat rate and the lot schedule. *)
Theorem forward_brokerage_zero (t : Trade) (nseRate : num) (m : gmap string Mcx.t) :
  Type_ t = "FORWARD" ->
  V1.calcBrokerage t nseRate m = zero /\ V2.calcBrokerage t nseRate m = zero.
Proof.
  intros H. split; [now apply V1_forward | now apply V2_forward].
Qed.

Lemma forward_brokerage_zero_witness :
  let t := row "SELL" "200" "90000" "gold" "FORWARD" "MCX" in
  Type_ t = "FORWARD" /\
  V1.calcBrokerage t DEFAULT_NSE_RATE (mcxMap DEFAULT_MCX_SCRIPTS) = zero /\
  V2.calcBrokerage t DEFAULT_NSE_RATE (mcxMap DEFAULT_MCX_SCRIPTS) = zero.
Proof.
  split; [reflexivity|].
  apply (forward_brokerage_zero (row "SELL" "200" "90000" "gold" "FORWARD" "MCX")).
  reflexivity.
Defined.

(** C4: a trade that is not FORWARD and is not priced by lot costs
    volume * (flat rate / 10,000,000), in the first text (no schedule entry
    and an exchange other than MCX) and in the second (no schedule entry or
    an exchange other than MCX); volume 500000 at the flat rate 3000 costs
    150. *)
Theorem flat_rate_brokerage (t : Trade) (nseRate : num) (m : gmap string Mcx.t) :
  Type_ t ≠ "FORWARD" ->
  (m !! toUpperCase (Script t) = None -> Exchange t ≠ "MCX" ->
     V1.calcBrokerage t nseRate m = (V1.volOf t * (nseRate / of_Z 10000000))%num) /\
  (m !! toUpperCase (Script t) = None \/ Exchange t ≠ "MCX" ->
     V2.calcBrokerage t nseRate m = (V2.volOf t * (nseRate / of_Z 10000000))%num) /\
  (m !! toUpperCase (Script t) = None -> Exchange t ≠ "MCX" ->
     V1.volOf t = of_Z 500000 -> nseRate = of_Z 3000 ->
     V1.calcBrokerage t nseRate m = of_Z 150 /\ V2.calcBrokerage t nseRate m = of_Z 150).
Proof.
  intros Hf. split; [|split].
  - intros Hn Hx. now apply V1_flat.
  - intros H. now apply V2_flat.
  - intros Hn Hx Hv Hr. split.
    + rewrite V1_flat by assumption. rewrite Hv, Hr. vm_compute. reflexivity.
    + rewrite V2_flat by auto. rewrite volOf_agree, Hv, Hr. vm_compute. reflexivity.
Qed.

Lemma flat_rate_brokerage_witness :
  let t := row "BUY" "100" "500000" "infy" "NORMAL" "NSE" in
  Type_ t ≠ "FORWARD" /\
  V1.calcBrokerage t (of_Z 3000) (mcxMap DEFAULT_MCX_SCRIPTS) = of_Z 150 /\
  V2.calcBrokerage t (of_Z 3000) (mcxMap DEFAULT_MCX_SCRIPTS) = of_Z 150.
Proof.
  split; [discriminate|].
  apply (flat_rate_brokerage (row "BUY" "100" "500000" "infy" "NORMAL" "NSE")
           (of_Z 3000) (mcxMap DEFAULT_MCX_SCRIPTS));
    first [discriminate | vm_compute; reflexivity].
Defined.

(** * The report builder *)

(** C5 fails on symbols that are array indices: [Object.values] lists such
    keys first, in numeric order.  A trade in "tcs" followed by one in the
    numeric code "500325" is reported with the group "500325" first. *)
Theorem report_order_index_keys :
  let trades := [row "BUY" "10" "35000" "tcs" "NORMAL" "NSE";
                 row "BUY" "5" "12500" "500325" "NORMAL" "NSE"] in
  firstSeen (groupKey <$> trades) = ["TCS"; "500325"] /\
  (fun g : ReportGroup => script g)
    <$> V1.buildReport trades DEFAULT_NSE_RATE (mcxMap DEFAULT_MCX_SCRIPTS)
  = ["500325"; "TCS"] /\
  (fun g : ReportGroup => script g)
    <$> V2.buildReport trades DEFAULT_NSE_RATE (mcxMap DEFAULT_MCX_SCRIPTS)
  = ["500325"; "TCS"].
Proof. vm_compute. repeat split. Qed.

(** When no symbol is an array index the groups do come in the order in which
    their symbols first appear among the trades. *)
Theorem report_order_first_seen (trades : list Trade) (nseRate : num) (m : gmap string Mcx.t) :
  (forall t, t ∈ trades -> JsObject.array_index (groupKey t) = None) ->
  (fun g : ReportGroup => script g) <$> V1.buildReport trades nseRate m
    = firstSeen (groupKey <$> trades) /\
  (fun g : ReportGroup => script g) <$> V2.buildReport trades nseRate m
    = firstSeen (groupKey <$> trades).
Proof. intros H. split; now apply buildReportWith_order. Qed.

Lemma report_order_first_seen_witness :
  let trades := [row "BUY" "10" "35000" "tcs" "NORMAL" "NSE";
                 row "SELL" "1" "60000" "gold" "NORMAL" "MCX";
                 row "SELL" "10" "36000" "TCS" "NORMAL" "NSE";
                 row "BUY" "4" "9000" "infy" "NORMAL" "NSE"] in
  (fun g : ReportGroup => script g)
    <$> V1.buildReport trades DEFAULT_NSE_RATE (mcxMap DEFAULT_MCX_SCRIPTS)
  = ["TCS"; "GOLD"; "INFY"].
Proof.
  refine (proj1 (report_order_first_seen
    [row "BUY" "10" "35000" "tcs" "NORMAL" "NSE";
     row "SELL" "1" "60000" "gold" "NORMAL" "MCX";
     row "SELL" "10" "36000" "TCS" "NORMAL" "NSE";
     row "BUY" "4" "9000" "infy" "NORMAL" "NSE"]
    DEFAULT_NSE_RATE (mcxMap DEFAULT_MCX_SCRIPTS) _)).
  intros t Ht.
  repeat (apply elem_of_cons in Ht as [->|Ht]; [reflexivity|]).
  now apply elem_of_nil in Ht.
Defined.

(** C6 as stated fails in its last part: with the default flat rate, two
    sells of volume 100 and 200 in two symbols give total gross 300 and
    total brokerage 0.09, so gross less brokerage is 299.91, while the total
    of the group nets 99.97 and 199.94 is 299.90999999999997. *)
Lemma grand_net_differs :
  let report :=
    V1.buildReport [row "SELL" "1" "100" "tcs" "NORMAL" "NSE";
                    row "SELL" "2" "200" "infy" "NORMAL" "NSE"]
      DEFAULT_NSE_RATE (mcxMap DEFAULT_MCX_SCRIPTS) in
  (fun g : ReportGroup => net g) <$> report
    = [parseFloat (Some "99.97"); parseFloat (Some "199.94")] /\
  totalGross report = of_Z 300 /\
  totalBrokerage report = parseFloat (Some "0.09") /\
  (totalGross report - totalBrokerage report)%num = parseFloat (Some "299.91") /\
  totalNet report = parseFloat (Some "299.90999999999997") /\
  ltb (totalNet report) (totalGross report - totalBrokerage report)%num = true.
Proof. vm_compute. repeat split. Qed.

(** The same on large amounts: the brokerage of 1 is lost in the net of the
    first group and kept in the difference of the totals. *)
Example grand_net_differs_large :
  let report :=
    V1.buildReport [row "SELL" "0.025" "10000000000000000" "zinc" "NORMAL" "MCX";
                    row "BUY" "0.025" "0" "lead" "NORMAL" "MCX"]
      DEFAULT_NSE_RATE (mcxMap DEFAULT_MCX_SCRIPTS) in
  totalGross report = of_Z 10000000000000000 /\
  totalBrokerage report = of_Z 2 /\
  (totalGross report - totalBrokerage report)%num = of_Z 9999999999999998 /\
  totalNet report = of_Z 10000000000000000.
Proof. vm_compute. repeat split. Qed.

(** C6, as amended: in every group of a report the total brokerage is buy
    brokerage + sell brokerage, the gross is sell volume - buy volume and the
    net is gross - total brokerage, each one rounded operation.  The grand
    totals are sums from +0 along the groups: the total gross adds the group
    gross values, the total brokerage the group brokerages, and the total net
    the group nets, that is gross - total brokerage group by group.  On an
    empty report the total net is total gross - total brokerage. *)
Theorem report_totals (trades : list Trade) (nseRate : num) (m : gmap string Mcx.t)
    (report : list ReportGroup) :
  report = V1.buildReport trades nseRate m \/ report = V2.buildReport trades nseRate m ->
  (forall g : ReportGroup, g ∈ report ->
     totalBrk g = (buyBrk g + sellBrk g)%num /\
     gross g = (sellVol g - buyVol g)%num /\
     net g = (gross g - totalBrk g)%num) /\
  (totalGross [] = zero /\ totalBrokerage [] = zero /\ totalNet [] = zero /\
   totalNet [] = (totalGross [] - totalBrokerage [])%num) /\
  (forall (r : list ReportGroup) (g : ReportGroup),
     totalGross (r ++ [g]) = (totalGross r + gross g)%num /\
     totalBrokerage (r ++ [g]) = (totalBrokerage r + totalBrk g)%num /\
     totalNet (r ++ [g]) = (totalNet r + net g)%num) /\
  totalNet report = sumBy (fun g : ReportGroup => (gross g - totalBrk g)%num) report.
Proof.
  intros Hr.
  assert (Hg : forall g : ReportGroup, g ∈ report ->
     totalBrk g = (buyBrk g + sellBrk g)%num /\
     gross g = (sellVol g - buyVol g)%num /\
     net g = (gross g - totalBrk g)%num).
  { intros g Hin.
    destruct Hr as [-> | ->];
      apply buildReportWith_sums in Hin as (_ & _ & _ & _ & H1 & H2 & H3); auto. }
  split; [exact Hg|]. split; [repeat split|]. split.
  - intros r g. repeat split; apply sumBy_snoc.
  - unfold totalNet. apply sumBy_ext. intros g Hin. apply (Hg g Hin).
Qed.

Lemma report_totals_witness :
  let report :=
    V1.buildReport [row "SELL" "1" "100" "tcs" "NORMAL" "NSE";
                    row "SELL" "2" "200" "infy" "NORMAL" "NSE"]
      DEFAULT_NSE_RATE (mcxMap DEFAULT_MCX_SCRIPTS) in
  totalNet report = sumBy (fun g : ReportGroup => (gross g - totalBrk g)%num) report.
Proof.
  exact (proj2 (proj2 (proj2
    (report_totals [row "SELL" "1" "100" "tcs" "NORMAL" "NSE";
                    row "SELL" "2" "200" "infy" "NORMAL" "NSE"]
       DEFAULT_NSE_RATE (mcxMap DEFAULT_MCX_SCRIPTS) _ (or_introl eq_refl))))).
Defined.

(** * Symbols, failures, lot sizes *)





(** What the report says of that trade: one group "UNKNOWN" holding it as
    its only sell, with all sums at +0. *)
Example report_unknown_group :
  let t := row "SELL" "n/a" "" "" "NORMAL" "NSE" in
  (fun g : ReportGroup => (script g, buys g, sells g, sellVol g, sellBrk g, net g))
    <$> V1.buildReport [t] DEFAULT_NSE_RATE (mcxMap DEFAULT_MCX_SCRIPTS)
  = [("UNKNOWN", [], [t], zero, zero, zero)].
Proof. vm_compute. reflexivity. Qed.



(** The division is not guarded: a schedule row with lot size 0 makes the
    brokerage infinite. *)
Example lot_size_zero :
  let t := row "BUY" "10" "52000" "zinc" "NORMAL" "MCX" in
  let m := mcxMap [ {| Mcx.script := "ZINC"; Mcx.lotQty := zero; Mcx.rate := of_Z 40 |} ] in
  V1.calcBrokerage t DEFAULT_NSE_RATE m = Infinity /\
  V2.calcBrokerage t DEFAULT_NSE_RATE m = Infinity.
Proof. vm_compute. split; reflexivity. Qed.

(** * The two texts of [calcBrokerage] compared *)

(** C10 as stated fails: on exchange MCX with no schedule entry the first
    text charges quantity * 40 and the second the flat rate. *)
Lemma calcBrokerage_texts_differ :
  let t := row "BUY" "10" "1000" "zinc" "NORMAL" "MCX" in
  V1.calcBrokerage t (of_Z 3000) ∅ = of_Z 400 /\
  V2.calcBrokerage t (of_Z 3000) ∅ = parseFloat (Some "0.3") /\
  ltb (V2.calcBrokerage t (of_Z 3000) ∅) (V1.calcBrokerage t (of_Z 3000) ∅) = true.
Proof. vm_compute. repeat split. Qed.

(** The other way round: an entry exists and the exchange is NSE. *)
Example calcBrokerage_texts_differ_nse :
  let t := row "BUY" "10" "1000" "gold" "NORMAL" "NSE" in
  let m := mcxMap DEFAULT_MCX_SCRIPTS in
  V1.calcBrokerage t (of_Z 3000) m = of_Z 300 /\
  V2.calcBrokerage t (of_Z 3000) m = parseFloat (Some "0.3").
Proof. vm_compute. split; reflexivity. Qed.

(** C10, as amended: the two texts return the same amount for every FORWARD
    trade and for every trade whose exchange is MCX exactly when the schedule
    has an entry under its uppercased symbol. *)
Theorem calcBrokerage_texts_agree (t : Trade) (nseRate : num) (m : gmap string Mcx.t) :
  Type_ t = "FORWARD" \/
    (Exchange t = "MCX" <-> is_Some (m !! toUpperCase (Script t))) ->
  V1.calcBrokerage t nseRate m = V2.calcBrokerage t nseRate m.
Proof.
  intros [Hf|Hsel].
  - now rewrite V1_forward, V2_forward.
  - destruct (String.eqb_spec (Type_ t) "FORWARD") as [Hf|Hf].
    { now rewrite V1_forward, V2_forward. }
    destruct (m !! toUpperCase (Script t)) as [s|] eqn:Hs.
    + assert (Hx : Exchange t = "MCX") by (apply Hsel; eauto).
      rewrite (V1_entry t nseRate m s Hf Hs), (V2_lot t nseRate m s Hf Hs Hx).
      now rewrite qtyOf_agree.
    + assert (Hx : Exchange t ≠ "MCX").
      { intros Hx. apply Hsel in Hx. destruct Hx as [s Hx]. discriminate. }
      rewrite (V1_flat t nseRate m Hf Hs Hx), V2_flat by auto.
      now rewrite volOf_agree.
Qed.

Lemma calcBrokerage_texts_agree_witness :
  let t := row "BUY" "200" "1300000" "CrudeOil" "NORMAL" "MCX" in
  let m := mcxMap DEFAULT_MCX_SCRIPTS in
  (Type_ t = "FORWARD" \/ (Exchange t = "MCX" <-> is_Some (m !! toUpperCase (Script t)))) /\
  V1.calcBrokerage t DEFAULT_NSE_RATE m = V2.calcBrokerage t DEFAULT_NSE_RATE m.
Proof.
  assert (H : Type_ (row "BUY" "200" "1300000" "CrudeOil" "NORMAL" "MCX") = "FORWARD" \/
    (Exchange (row "BUY" "200" "1300000" "CrudeOil" "NORMAL" "MCX") = "MCX" <->
       is_Some (mcxMap DEFAULT_MCX_SCRIPTS
                  !! toUpperCase (Script (row "BUY" "200" "1300000" "CrudeOil" "NORMAL" "MCX"))))).
  { right. split; [intros _; vm_compute; eauto | reflexivity]. }
  split; [exact H|].
  exact (calcBrokerage_texts_agree _ _ _ H).
Defined.

(** * Further properties of the report builder *)

Section ObjectOrder.
Context {V : Type}.
Implicit Types (o : list (string * V)) (k : string) (v : V).


Lemma get_of_elem o k v : NoDup o.*1 -> (k, v) ∈ o -> JsObject.get o k = Some v.
Proof.
  induction o as [|[k' v'] o IH]; intros Hnd Hin; [now apply elem_of_nil in Hin|].
  rewrite fmap_cons in Hnd. apply NoDup_cons in Hnd as [Hk' Hnd]. simpl in *.
  apply elem_of_cons in Hin as [[= -> ->]|Hin].
  - now rewrite String.eqb_refl.
  - destruct (String.eqb_spec k' k) as [->|Hne]; [|now apply IH].
    exfalso. apply Hk'. apply (list_elem_of_fmap_2 fst _ (k, v)), Hin.
Qed.

Lemma insert_index_perm (i : Z) v (l : list (Z * V)) :
  JsObject.insert_index i v l ≡ₚ (i, v) :: l.
Proof.
  induction l as [|[j w] l IH]; simpl; [reflexivity|].
  destruct (i <? j); [reflexivity|].
  rewrite IH. apply Permutation_swap.
Qed.

Lemma insert_index_sorted (i : Z) v (l : list (Z * V)) :
  Sorted Z.le l.*1 -> Sorted Z.le (JsObject.insert_index i v l).*1.
Proof.
  induction l as [|[j w] l IH]; intros Hs; simpl.
  - repeat constructor.
  - rewrite fmap_cons in Hs. apply Sorted_inv in Hs as [Hs Hh]. simpl in *.
    destruct (Z.ltb_spec i j) as [Hlt|Hge].
    + rewrite !fmap_cons. simpl. constructor.
      * rewrite <- fmap_cons with (f := fst) (x := (j, w)). now constructor.
      * constructor. simpl. lia.
    + rewrite fmap_cons. simpl. constructor; [now apply IH|].
      destruct l as [|[j' w'] l]; simpl.
      * constructor. lia.
      * destruct (i <? j'); simpl; constructor; simpl.
        -- lia.
        -- now apply HdRel_inv in Hh.
Qed.

Lemma index_props_sorted o : Sorted Z.le (JsObject.index_props o).*1.
Proof.
  induction o as [|[k v] o IH]; simpl; [constructor|].
  destruct (JsObject.array_index k); [now apply insert_index_sorted | exact IH].
Qed.

(** The indexed properties are those with an array-index key, each under
    its index. *)
Lemma index_props_perm o : JsObject.index_props o ≡ₚ indexed o.
Proof.
  induction o as [|[k v] o IH]; simpl; [reflexivity|].
  destruct (JsObject.array_index k) as [i|]; [|exact IH].
  now rewrite insert_index_perm, IH.
Qed.

Lemma string_props_filter o :
  JsObject.string_props o = (filter (fun x => JsObject.array_index x.1 = None) o).*2.
Proof.
  induction o as [|[k v] o IH]; [reflexivity|].
  cbn [JsObject.string_props].
  destruct (JsObject.array_index k) as [i|] eqn:E.
  - rewrite filter_cons_False by (simpl; rewrite E; discriminate). exact IH.
  - rewrite filter_cons_True by (simpl; exact E). rewrite fmap_cons. simpl. now rewrite IH.
Qed.

(** [Object.values] lists every property once. *)
Lemma values_perm o : JsObject.values o ≡ₚ o.*2.
Proof.
  unfold JsObject.values. induction o as [|[k v] o IH]; simpl; [reflexivity|].
  destruct (JsObject.array_index k) as [i|]; simpl.
  - rewrite insert_index_perm. rewrite fmap_cons. simpl. now rewrite IH.
  - rewrite <- Permutation_middle. now rewrite IH.
Qed.

Lemma values_elem_inv o v : v ∈ JsObject.values o -> exists k, (k, v) ∈ o.
Proof.
  rewrite values_perm. intros H.
  apply list_elem_of_fmap in H as ([k v'] & -> & H). eauto.
Qed.
End ObjectOrder.

Section GroupContents.
Implicit Types (o : list (string * Group)) (t : Trade) (g : Group) (l : list Trade)
  (k : string).

Lemma isBuy_true t : isBuy t = true <-> Action t = "BUY".
Proof. apply String.eqb_eq. Qed.

Lemma isBuy_false t : isBuy t = false <-> Action t ≠ "BUY".
Proof. apply String.eqb_neq. Qed.

Lemma firstSeen_NoDup (ks : list string) : NoDup (firstSeen ks).
Proof.
  induction ks as [|a ks IH]; simpl; [constructor|].
  apply NoDup_cons. split.
  - rewrite list_elem_of_filter. intros [H _]. now apply H.
  - now apply NoDup_filter.
Qed.

Lemma groupTrades_NoDup l : NoDup (groupTrades l).*1.
Proof. rewrite groupTrades_keys. apply firstSeen_NoDup. Qed.

Lemma groupOf_snoc_other k l t : groupKey t ≠ k -> groupOf k (l ++ [t]) = groupOf k l.
Proof.
  intros H. unfold groupOf. rewrite !filter_app.
  rewrite !filter_cons_False, !filter_nil, !app_nil_r; tauto.
Qed.

Lemma groupOf_snoc_same l t :
  groupOf (groupKey t) (l ++ [t])
  = Some (addTrade (default (freshGroup t) (groupOf (groupKey t) l)) t).
Proof.
  unfold groupOf. rewrite !filter_app.
  rewrite (filter_cons_True (fun t0 => groupKey t0 = groupKey t)) by reflexivity.
  rewrite filter_nil, last_snoc. f_equal.
  assert (Hl : forall P : Trade -> Prop, forall `{!forall x, Decision (P x)},
             (forall x, P x -> groupKey x = groupKey t) ->
             last (filter (fun t0 => groupKey t0 = groupKey t) l) = None ->
             filter P l = []).
  { intros P HP Himp Hnone. apply last_None in Hnone.
    induction l as [|x l IH]; [reflexivity|].
    destruct (decide (groupKey x = groupKey t)) as [Hx|Hx].
    - rewrite filter_cons_True in Hnone by exact Hx. discriminate.
    - rewrite filter_cons_False in Hnone by exact Hx.
      rewrite filter_cons_False by (intros Hp; apply Hx, Himp, Hp).
      now apply IH. }
  unfold addTrade.
  destruct (isBuy t) eqn:Hb.
  - apply isBuy_true in Hb.
    rewrite (filter_cons_True (fun t0 => groupKey t0 = groupKey t /\ Action t0 = "BUY"))
      by (split; [reflexivity | exact Hb]).
    rewrite (filter_cons_False (fun t0 => groupKey t0 = groupKey t /\ Action t0 ≠ "BUY"))
      by (intros [_ H]; now apply H).
    rewrite !filter_nil, app_nil_r.
    destruct (last (filter (fun t0 => groupKey t0 = groupKey t) l)) eqn:E; simpl.
    + reflexivity.
    + rewrite (Hl (fun t0 => groupKey t0 = groupKey t /\ Action t0 = "BUY") _) by tauto.
      rewrite (Hl (fun t0 => groupKey t0 = groupKey t /\ Action t0 ≠ "BUY") _) by tauto.
      reflexivity.
  - apply isBuy_false in Hb.
    rewrite (filter_cons_False (fun t0 => groupKey t0 = groupKey t /\ Action t0 = "BUY"))
      by (intros [_ H]; now apply Hb).
    rewrite (filter_cons_True (fun t0 => groupKey t0 = groupKey t /\ Action t0 ≠ "BUY"))
      by (split; [reflexivity | exact Hb]).
    rewrite !filter_nil, app_nil_r.
    destruct (last (filter (fun t0 => groupKey t0 = groupKey t) l)) eqn:E; simpl.
    + reflexivity.
    + rewrite (Hl (fun t0 => groupKey t0 = groupKey t /\ Action t0 = "BUY") _) by tauto.
      rewrite (Hl (fun t0 => groupKey t0 = groupKey t /\ Action t0 ≠ "BUY") _) by tauto.
      reflexivity.
Qed.

(** What the grouping loop has stored under a key. *)
Lemma groupTrades_get l k : JsObject.get (groupTrades l) k = groupOf k l.
Proof.
  induction l as [|t l IH] using rev_ind; [reflexivity|].
  rewrite groupTrades_snoc.
  destruct (decide (groupKey t = k)) as [<-|Hne].
  - now rewrite groupStep_get_same, groupOf_snoc_same, IH.
  - rewrite groupStep_get_other, groupOf_snoc_other by exact Hne. exact IH.
Qed.

Lemma set_size o k g :
  (sum_list (groupSize <$> (JsObject.set o k g).*2)
   + from_option groupSize 0 (JsObject.get o k)
   = sum_list (groupSize <$> o.*2) + groupSize g)%nat.
Proof.
  induction o as [|[k' g'] o IH]; [simpl; lia|].
  cbn [JsObject.set JsObject.get].
  destruct (String.eqb_spec k' k) as [->|Hne].
  - rewrite !fmap_cons. cbn [snd sum_list from_option]. unfold id in *. lia.
  - rewrite !fmap_cons. cbn [snd sum_list]. unfold id in *. lia.
Qed.

Lemma groupSize_addTrade g t : groupSize (addTrade g t) = S (groupSize g).
Proof.
  unfold groupSize, addTrade. destruct (isBuy t); simpl; rewrite length_app; simpl; lia.
Qed.

(** No trade is lost and none is counted twice. *)
Lemma groupTrades_size l : sum_list (groupSize <$> (groupTrades l).*2) = length l.
Proof.
  induction l as [|t l IH] using rev_ind; [reflexivity|].
  rewrite groupTrades_snoc, groupStep_set, length_app. simpl.
  pose proof (set_size (groupTrades l) (groupKey t)
                (addTrade (default (freshGroup t)
                             (JsObject.get (groupTrades l) (groupKey t))) t)) as H.
  rewrite groupSize_addTrade in H.
  assert (Hf : groupSize (freshGroup t) = 0%nat) by reflexivity.
  destruct (JsObject.get (groupTrades l) (groupKey t)) as [g|];
    cbn [default from_option id] in *; unfold JsObject.t in *; lia.
Qed.
End GroupContents.

Section ReportShape.
Variable volOf : Trade -> num.
Variable brokerage : Trade -> num.
Implicit Types (o : list (string * Group)) (l : list Trade) (t : Trade) (k : string).

Lemma keyed_filter_scripts o (P : string -> Prop) `{!forall k, Decision (P k)} :
  keyed o -> script <$> (filter (fun x => P x.1) o).*2 = filter P o.*1.
Proof.
  intros Hkd. induction o as [|[k g] o IH]; [reflexivity|].
  assert (Ho : keyed o) by (intros k' g' Hin; apply Hkd; now apply list_elem_of_further).
  rewrite fmap_cons. simpl.
  destruct (decide (P k)) as [Hp|Hp].
  - rewrite !filter_cons_True by exact Hp. rewrite !fmap_cons. simpl.
    f_equal; [apply Hkd, list_elem_of_here | now apply IH].
  - rewrite !filter_cons_False by exact Hp. now apply IH.
Qed.

Lemma keyed_index_scripts o :
  keyed o -> script <$> (indexed o).*2 = filter isIndexKey o.*1.
Proof.
  intros H. induction o as [|[k g] o IH]; [reflexivity|].
  assert (Ho : keyed o) by (intros k' g' Hin; apply H; now apply list_elem_of_further).
  rewrite fmap_cons. cbn [indexed fst].
  destruct (JsObject.array_index k) as [i|] eqn:E.
  - rewrite filter_cons_True by (unfold isIndexKey; rewrite E; eauto).
    rewrite !fmap_cons. cbn [snd]. f_equal; [apply H, list_elem_of_here | now apply IH].
  - rewrite filter_cons_False by (unfold isIndexKey; rewrite E; now intros [? ?]).
    now apply IH.
Qed.

Lemma keyed_index_tagged o :
  keyed o ->
  Forall (fun x : Z * Group => JsObject.array_index (script x.2) = Some x.1)
    (JsObject.index_props o).
Proof.
  intros H. rewrite index_props_perm.
  induction o as [|[k g] o IH]; [constructor|].
  assert (Ho : keyed o) by (intros k' g' Hin; apply H; now apply list_elem_of_further).
  cbn [indexed]. destruct (JsObject.array_index k) as [i|] eqn:E; [|now apply IH].
  constructor; [|now apply IH].
  cbn [fst snd]. rewrite (H k g) by apply list_elem_of_here. exact E.
Qed.

Lemma tagged_indices (ip : list (Z * Group)) :
  Forall (fun x : Z * Group => JsObject.array_index (script x.2) = Some x.1) ip ->
  omap JsObject.array_index (script <$> ip.*2) = ip.*1 /\
  Forall isIndexKey (script <$> ip.*2).
Proof.
  induction 1 as [|[i g] ip Hx _ [IH1 IH2]]; [split; constructor|].
  rewrite !fmap_cons. cbn [fst snd] in *. split.
  - cbn [omap list_omap]. rewrite Hx. f_equal. exact IH1.
  - constructor; [unfold isIndexKey; rewrite Hx; eauto | exact IH2].
Qed.

(** The symbols of the report: those that are array indices first, by
    ascending index, then the others in order of first appearance. *)
Lemma buildReportWith_scripts l :
  exists idx str : list string,
    (fun g : ReportGroup => script g) <$> buildReportWith volOf brokerage l = idx ++ str /\
    Forall isIndexKey idx /\
    Sorted Z.le (omap JsObject.array_index idx) /\
    idx ≡ₚ filter isIndexKey (firstSeen (groupKey <$> l)) /\
    str = filter (fun k => JsObject.array_index k = None) (firstSeen (groupKey <$> l)).
Proof.
  pose proof (groupTrades_keyed l) as Hk.
  pose proof (keyed_index_tagged _ Hk) as Ht.
  destruct (tagged_indices _ Ht) as [Hi Hf].
  exists (script <$> (JsObject.index_props (groupTrades l)).*2),
         (script <$> JsObject.string_props (groupTrades l)).
  split; [|split; [|split; [|split]]].
  - rewrite report_scripts, buildReportWith_groups. unfold JsObject.values.
    now rewrite fmap_app.
  - exact Hf.
  - rewrite Hi. apply index_props_sorted.
  - rewrite <- groupTrades_keys, <- (keyed_index_scripts _ Hk).
    now rewrite index_props_perm.
  - rewrite string_props_filter, <- groupTrades_keys.
    etransitivity;
      [exact (keyed_filter_scripts _ (fun k => JsObject.array_index k = None) Hk)|].
    apply list_filter_iff. reflexivity.
Qed.

Lemma buildReportWith_scripts_perm l :
  (fun g : ReportGroup => script g) <$> buildReportWith volOf brokerage l
  ≡ₚ firstSeen (groupKey <$> l).
Proof.
  rewrite report_scripts, buildReportWith_groups, values_perm.
  rewrite keyed_scripts by apply groupTrades_keyed.
  now rewrite groupTrades_keys.
Qed.

(** Every group of the report is the group of its symbol. *)
Lemma buildReportWith_groupOf l (g : ReportGroup) :
  g ∈ buildReportWith volOf brokerage l -> groupOf (script g) l = Some (group g).
Proof.
  intros H. apply (list_elem_of_fmap_2 group) in H.
  rewrite buildReportWith_groups in H.
  apply values_elem_inv in H as [k H].
  pose proof (groupTrades_keyed l k _ H) as Hs.
  apply get_of_elem in H; [|apply groupTrades_NoDup].
  rewrite groupTrades_get in H. now rewrite Hs.
Qed.

Lemma buildReportWith_size l :
  sum_list ((fun g : ReportGroup => groupSize g) <$> buildReportWith volOf brokerage l)
  = length l.
Proof.
  rewrite <- groupTrades_size.
  rewrite <- values_perm, <- (buildReportWith_groups volOf brokerage).
  induction (buildReportWith volOf brokerage l) as [|g r IH]; [reflexivity|].
  rewrite !fmap_cons. simpl. now rewrite IH.
Qed.
End ReportShape.

(** * Properties of the settings form *)

Section SettingsFacts.
Implicit Types (p l : list Mcx.t) (s : Mcx.t) (m : gmap string Mcx.t) (k : string)
  (i j : nat) (e : McxEdit).

Lemma fold_mcxInsert_other l : forall m k,
  (forall s, s ∈ l -> toUpperCase (Mcx.script s) ≠ k) ->
  fold_left mcxInsert l m !! k = m !! k.
Proof.
  induction l as [|a l IH]; intros m k H; [reflexivity|].
  simpl. rewrite IH by (intros s Hs; apply H; now apply list_elem_of_further).
  unfold mcxInsert. apply lookup_insert_ne. apply H, list_elem_of_here.
Qed.

Lemma imap_id_like {A} (f : nat -> A -> A) (l : list A) :
  (forall n x, f n x = x) -> imap f l = l.
Proof.
  revert f. induction l as [|x l IH]; intros f H; [reflexivity|].
  rewrite imap_cons, H. f_equal. apply IH. intros n y. apply H.
Qed.

(** [updateMcx] rewrites the row at position [i] and no other. *)
Lemma updateMcx_alter i e p : updateMcx i e p = alter (applyEdit e) i p.
Proof.
  unfold updateMcx. revert i. induction p as [|s p IH]; intros i; [reflexivity|].
  rewrite imap_cons. destruct i as [|i].
  - change (alter (applyEdit e) 0%nat (s :: p)) with (applyEdit e s :: p).
    simpl. f_equal. apply imap_id_like. reflexivity.
  - change (alter (applyEdit e) (S i) (s :: p)) with (s :: alter (applyEdit e) i p).
    simpl. f_equal. rewrite <- IH. apply imap_ext. reflexivity.
Qed.

Lemma filter_index_above (n j : nat) p :
  (j < n)%nat ->
  (filter (fun x : nat * Mcx.t => x.1 ≠ j) (imap (fun idx s => ((n + idx)%nat, s)) p)).*2 = p.
Proof.
  revert n. induction p as [|s p IH]; intros n Hj; [reflexivity|].
  rewrite imap_cons. rewrite filter_cons_True by (simpl; lia).
  rewrite fmap_cons. simpl. f_equal.
  rewrite <- (IH (S n)) at 2 by lia.
  f_equal. f_equal. apply imap_ext. intros idx x _. simpl. f_equal. lia.
Qed.

Lemma filter_index_delete (n i : nat) p :
  (filter (fun x : nat * Mcx.t => x.1 ≠ (n + i)%nat)
     (imap (fun idx s => ((n + idx)%nat, s)) p)).*2 = delete i p.
Proof.
  revert n i. induction p as [|s p IH]; intros n i; [reflexivity|].
  rewrite imap_cons. destruct i as [|i].
  - rewrite filter_cons_False by (simpl; lia). simpl.
    rewrite <- (filter_index_above (S n) (n + 0) p) at 2 by lia.
    f_equal. f_equal. apply imap_ext. intros idx x _. simpl. f_equal. lia.
  - rewrite filter_cons_True by (simpl; lia).
    rewrite fmap_cons. simpl. f_equal.
    rewrite <- (IH (S n) i).
    f_equal. replace (n + S i)%nat with (S n + i)%nat by lia.
    f_equal. apply imap_ext. intros idx x _. simpl. f_equal. lia.
Qed.

(** [removeMcx] deletes the row at position [i] and no other. *)
Lemma removeMcx_delete i p : removeMcx i p = delete i p.
Proof. unfold removeMcx. exact (filter_index_delete 0 i p). Qed.

Lemma or1_truthy x : truthy (or1 x) = true.
Proof. unfold or1. destruct (truthy x) eqn:E; [exact E | reflexivity]. Qed.

Lemma or0_isNaN x : isNaN (or0 x) = false.
Proof. destruct x; reflexivity. Qed.

Lemma default_rows_ok : Forall rowOk DEFAULT_MCX_SCRIPTS.
Proof. repeat constructor. Qed.

Lemma applyEdit_ok e s :
  rowOk s ->
  match e with
  | SetScript v => toUpperCase v = v
  | SetLotQty v => truthy v = true
  | SetRate v => isNaN v = false
  end ->
  rowOk (applyEdit e s).
Proof.
  intros (H1 & H2 & H3) He. destruct e; repeat split; simpl; assumption.
Qed.

Lemma settingsStep_ok (st : Settings.t) (a : SettingsAction) :
  isNaN (Settings.nseRate st) = false -> Forall rowOk (Settings.mcxScripts st) ->
  isNaN (Settings.nseRate (settingsStep st a)) = false /\
  Forall rowOk (Settings.mcxScripts (settingsStep st a)).
Proof.
  intros Hr Hp. destruct a; simpl.
  - split; [apply or0_isNaN | exact Hp].
  - split; [exact Hr|]. rewrite updateMcx_alter. apply Forall_alter; [exact Hp|].
    intros s _ Hs. apply applyEdit_ok; [exact Hs | apply toUpperCase_idem].
  - split; [exact Hr|]. rewrite updateMcx_alter. apply Forall_alter; [exact Hp|].
    intros s _ Hs. apply applyEdit_ok; [exact Hs | apply or1_truthy].
  - split; [exact Hr|]. rewrite updateMcx_alter. apply Forall_alter; [exact Hp|].
    intros s _ Hs. apply applyEdit_ok; [exact Hs | apply or0_isNaN].
  - split; [exact Hr|]. unfold addMcx. apply Forall_app. split; [exact Hp|].
    repeat constructor.
  - split; [exact Hr|]. rewrite removeMcx_delete. now apply Forall_delete.
Qed.

Lemma settingsAfter_ok (actions : list SettingsAction) :
  isNaN (Settings.nseRate (settingsAfter actions)) = false /\
  Forall rowOk (Settings.mcxScripts (settingsAfter actions)).
Proof.
  unfold settingsAfter.
  induction actions as [|a actions IH] using rev_ind.
  - split; [reflexivity | exact default_rows_ok].
  - rewrite fold_left_app. simpl. destruct IH as [H1 H2]. now apply settingsStep_ok.
Qed.
End SettingsFacts.

(** * Properties of the entry form *)

Section Sanitiser.

Lemma is_AZ09_upper c : is_AZ09 c = true -> upper_char c = c.
Proof.
  destruct c as [[] [] [] [] [] [] [] []]; intros H; try reflexivity; discriminate H.
Qed.

Lemma keepAZ09_only (s : string) : onlyAZ09 (keepAZ09 s) = true.
Proof.
  induction s as [|c s IH]; [reflexivity|].
  simpl. destruct (is_AZ09 c) eqn:E; [|exact IH].
  simpl. now rewrite E, IH.
Qed.

Lemma onlyAZ09_fixed (s : string) :
  onlyAZ09 s = true -> keepAZ09 s = s /\ toUpperCase s = s.
Proof.
  induction s as [|c s IH]; [split; reflexivity|].
  simpl. intros H. apply andb_prop in H as [Hc Hs].
  destruct (IH Hs) as [IH1 IH2].
  rewrite Hc, IH1, IH2, (is_AZ09_upper c Hc). split; reflexivity.
Qed.

Lemma scriptInput_only (raw : string) : onlyAZ09 (scriptInput raw) = true.
Proof. apply keepAZ09_only. Qed.
End Sanitiser.

Section Decimal.

Lemma digit_cases (d : Z) :
  0 <= d <= 9 ->
  d = 0 \/ d = 1 \/ d = 2 \/ d = 3 \/ d = 4 \/ d = 5 \/ d = 6 \/ d = 7 \/ d = 8 \/ d = 9.
Proof. lia. Qed.

Lemma digit_char_spec (d : Z) :
  0 <= d <= 9 ->
  is_digit (digit_char d) = true /\ digit_val (digit_char d) = d /\
  is_space (digit_char d) = false /\
  take_sign (String (digit_char d) EmptyString) = (false, String (digit_char d) EmptyString) /\
  Ascii.eqb "I" (digit_char d) = false.
Proof.
  intros H. apply digit_cases in H.
  repeat (destruct H as [->|H]; [repeat split|]). subst d. repeat split.
Qed.


Lemma take_digits_digit (a c d : Z) (r : string) :
  0 <= d <= 9 ->
  take_digits a c (String (digit_char d) r) = take_digits (10 * a + d) (c + 1) r.
Proof.
  intros H. destruct (digit_char_spec d H) as (H1 & H2 & _).
  simpl. now rewrite H1, H2.
Qed.

(** Reading back the digits written by [decimal_acc]. *)
Lemma take_digits_decimal_acc (fuel : nat) : forall n acc,
  0 <= n < 10 ^ (Z.of_nat fuel + 1) ->
  exists len, 1 <= len /\
    forall a c, take_digits a c (decimal_acc fuel n acc)
                = take_digits (a * 10 ^ len + n) (c + len) acc.
Proof.
  induction fuel as [|f IH]; intros n acc Hn.
  - exists 1. split; [lia|]. intros a c. simpl decimal_acc.
    rewrite take_digits_digit by (simpl in Hn; lia). f_equal; lia.
  - cbn [decimal_acc]. destruct (Z.ltb_spec n 10) as [Hlt|Hge].
    + exists 1. split; [lia|]. intros a c.
      rewrite take_digits_digit by lia. f_equal; lia.
    + assert (Hq : 0 <= n / 10 < 10 ^ (Z.of_nat f + 1)).
      { split; [apply Z.div_pos; lia|].
        apply Z.div_lt_upper_bound; [lia|].
        replace (Z.of_nat (S f) + 1) with (Z.succ (Z.of_nat f + 1)) in Hn by lia.
        rewrite Z.pow_succ_r in Hn by lia. lia. }
      destruct (IH (n / 10) (String (digit_char (n mod 10)) acc) Hq) as (len & Hlen & H).
      exists (len + 1). split; [lia|]. intros a c.
      rewrite H, take_digits_digit by (pose proof (Z.mod_pos_bound n 10); lia).
      rewrite Z.pow_add_r, Z.pow_1_r by lia.
      pose proof (Z.div_mod n 10 ltac:(lia)).
      f_equal; [nia | lia].
Qed.

Lemma pow10_step (f : nat) (n : Z) :
  10 <= n < 10 ^ (Z.of_nat (S f) + 1) -> 0 <= n / 10 < 10 ^ (Z.of_nat f + 1).
Proof.
  intros Hn. split; [apply Z.div_pos; lia|].
  apply Z.div_lt_upper_bound; [lia|].
  replace (Z.of_nat (S f) + 1) with (Z.succ (Z.of_nat f + 1)) in Hn by lia.
  rewrite Z.pow_succ_r in Hn by lia. lia.
Qed.

(** The digits start with a digit. *)
Lemma decimal_acc_head (fuel : nat) : forall n acc,
  0 <= n < 10 ^ (Z.of_nat fuel + 1) ->
  exists d r, 0 <= d <= 9 /\ decimal_acc fuel n acc = String (digit_char d) r.
Proof.
  induction fuel as [|f IH]; intros n acc Hn.
  - exists n, acc. split; [simpl in Hn; lia | reflexivity].
  - cbn [decimal_acc]. destruct (Z.ltb_spec n 10) as [Hlt|Hge].
    + exists n, acc. split; [lia | reflexivity].
    + apply IH. apply pow10_step. lia.
Qed.

Lemma decimal_acc_app (fuel : nat) : forall n acc rest,
  String.append (decimal_acc fuel n acc) rest = decimal_acc fuel n (String.append acc rest).
Proof.
  induction fuel as [|f IH]; intros n acc rest; [reflexivity|].
  cbn [decimal_acc]. destruct (n <? 10); [reflexivity|].
  now rewrite IH.
Qed.

Lemma decimal_fuel (n : Z) : 0 <= n -> 0 <= n < 10 ^ (Z.of_nat (Z.to_nat (Z.log2 n)) + 1).
Proof.
  intros Hn. split; [exact Hn|].
  rewrite Z2Nat.id by apply Z.log2_nonneg.
  destruct (Z.eq_dec n 0) as [->|Hne]; [reflexivity|].
  pose proof (Z.log2_spec n ltac:(lia)) as [_ H].
  eapply Z.lt_le_trans; [exact H|].
  replace (Z.succ (Z.log2 n)) with (Z.log2 n + 1) by lia.
  apply Z.pow_le_mono_l. lia.
Qed.
End Decimal.

Section ToFixedParse.

Lemma head_digit_facts (b : string) (d : Z) (r : string) :
  0 <= d <= 9 -> b = String (digit_char d) r ->
  trimStart b = b /\ take_sign b = (false, b) /\ String.prefix "Infinity" b = false.
Proof.
  intros H ->. apply digit_cases in H.
  repeat (destruct H as [->|H]; [repeat split|]). subst d. repeat split.
Qed.

(** Reading back an amount written with two decimals. *)
Lemma parse_cents (neg : bool) (n : Z) :
  0 <= n ->
  parseFloat_string
    (String.append (if neg then "-" else "")
       (String.append (decimal (n / 100))
          (String "." (String (digit_char (n mod 100 / 10))
             (String (digit_char (n mod 10)) EmptyString)))))
  = of_decimal neg n (-2).
Proof.
  intros Hn.
  assert (Hip : 0 <= n / 100) by (apply Z.div_pos; lia).
  assert (Hd1 : 0 <= n mod 100 / 10 <= 9).
  { pose proof (Z.mod_pos_bound n 100 ltac:(lia)).
    split; [apply Z.div_pos; lia|]. apply Zlt_succ_le, Z.div_lt_upper_bound; lia. }
  assert (Hd2 : 0 <= n mod 10 <= 9) by (pose proof (Z.mod_pos_bound n 10); lia).
  assert (Hval : 10 * (10 * (n / 100) + n mod 100 / 10) + n mod 10 = n).
  { pose proof (Z.div_mod n 100 ltac:(lia)).
    pose proof (Z.div_mod (n mod 100) 10 ltac:(lia)).
    assert (n mod 100 mod 10 = n mod 10).
    { apply Z.mod_mod_divide. exists 10. lia. }
    lia. }
  unfold decimal. rewrite decimal_acc_app.
  match goal with
  | |- context [String.append EmptyString ?x] =>
      change (String.append EmptyString x) with x
  end.
  set (rest := String "." (String (digit_char (n mod 100 / 10))
                 (String (digit_char (n mod 10)) EmptyString))).
  set (fuel := Z.to_nat (Z.log2 (n / 100))).
  pose proof (decimal_fuel (n / 100) Hip) as Hfuel. fold fuel in Hfuel.
  destruct (decimal_acc_head fuel (n / 100) rest Hfuel) as (d & r & Hd & Hbody).
  destruct (take_digits_decimal_acc fuel (n / 100) rest Hfuel) as (len & Hlen & Htd).
  set (body := decimal_acc fuel (n / 100) rest) in *.
  destruct (head_digit_facts body d r Hd Hbody) as (Ht & Hs & Hp).
  assert (Hpre : take_sign (trimStart (String.append (if neg then "-" else "") body))
                 = (neg, body)).
  { destruct neg.
    - reflexivity.
    - change (String.append EmptyString body) with body. now rewrite Ht, Hs. }
  unfold parseFloat_string. rewrite Hpre, Hp, Htd.
  unfold rest at 1. cbn [take_digits]. 
  change (is_digit ".") with false. cbv iota.
  unfold rest. rewrite !take_digits_digit by assumption. cbn [take_digits].
  replace (0 + len + 1 + 1 - (0 + len)) with 2 by lia.
  destruct (Z.eqb_spec (0 + len + 2) 0) as [E|_]; [lia|].
  cbn [take_exponent]. f_equal. lia.
Qed.

Lemma round2_nonneg m e : 0 <= round2 m e.
Proof.
  unfold round2. destruct (0 <=? e) eqn:E.
  - apply Z.leb_le in E. pose proof (Z.pow_pos_nonneg 2 e). nia.
  - apply Z.leb_gt in E. apply Z.div_pos.
    + pose proof (Z.pow_pos_nonneg 2 (- e)). lia.
    + apply Z.pow_pos_nonneg; lia.
Qed.

(** [round2 m e] is the integer nearest to [100 * m * 2^e], the upper one
    of two: with [d] the denominator and [u] the numerator of [2^e],
    [-1/2 < round2 m e - 100 * m * u / d <= 1/2]. *)
Lemma round2_nearest m e :
  let d := 2 ^ Z.max 0 (- e) in
  let u := 2 ^ Z.max 0 e in
  - d < 2 * (round2 m e * d - 100 * Zpos m * u) <= d.
Proof.
  unfold round2. destruct (0 <=? e) eqn:E; cbv zeta.
  - apply Z.leb_le in E.
    rewrite (Z.max_l 0 (- e)), Z.max_r by lia. rewrite Z.pow_0_r. lia.
  - apply Z.leb_gt in E.
    rewrite (Z.max_r 0 (- e)), Z.max_l by lia. rewrite Z.pow_0_r.
    replace (1 - e) with (- e + 1) by lia.
    rewrite Z.pow_add_r, Z.pow_1_r by lia.
    assert (Hd : 0 < 2 ^ (- e)) by (apply Z.pow_pos_nonneg; lia).
    set (d := 2 ^ (- e)) in *.
    pose proof (Z.div_mod (200 * Zpos m + d) (d * 2) ltac:(lia)) as Hq.
    pose proof (Z.mod_pos_bound (200 * Zpos m + d) (d * 2) ltac:(lia)) as Hr.
    nia.
Qed.

Section ToFixed.
Variable bigToString : num -> string.

Lemma toFixed2_parse s m e :
  atLeast1e21 m e = false ->
  parseFloat (Some (toFixed2 bigToString (S754_finite s m e)))
  = of_decimal s (round2 m e) (-2).
Proof.
  intros H. unfold toFixed2, parseFloat. rewrite H. cbv zeta.
  apply parse_cents, round2_nonneg.
Qed.

(** The values that are not finite and non-zero: each reads back as
    itself, except that -0 comes back as +0. *)
Lemma toFixed2_parse_special x :
  match x with S754_finite _ _ _ => False | _ => True end ->
  parseFloat (Some (toFixed2 bigToString x))
  = match x with S754_zero _ => zero | _ => x end.
Proof. destruct x as [[]|[]| |]; intros H; try reflexivity. destruct H. Qed.

End ToFixed.
End ToFixedParse.

(** ** Editing a row *)

Section EditRow.
Variable bigToString : num -> string.
Implicit Types (r t : Trade) (id val : string) (field : TradeField).

Lemma mul_zero_r_read (q : num) :
  or0 (parseFloat (Some (if negb (isNaN q) && negb (isNaN zero)
                         then toFixed2 bigToString (q * zero)%num else EmptyString)))
  = zero.
Proof. destruct q as [[]|[]| |[] m e]; reflexivity. Qed.

Lemma mul_zero_l_read (p : num) :
  or0 (parseFloat (Some (if negb (isNaN zero) && negb (isNaN p)
                         then toFixed2 bigToString (zero * p)%num else EmptyString)))
  = zero.
Proof. destruct p as [[]|[]| |[] m e]; reflexivity. Qed.

Lemma orZeroString_cases (x : option string) :
  (V2.orZeroString x = "0" /\ parseFloat x = NaN) \/ Some (V2.orZeroString x) = x.
Proof.
  destruct x as [s|]; [|left; split; reflexivity].
  unfold V2.orZeroString. destruct (String.eqb_spec s "") as [->|_].
  - left. split; reflexivity.
  - now right.
Qed.

(** The two texts of [updateTrade] give the engine the same row to read. *)
Lemma updateRow_view id field val r :
  engineView (updateRow bigToString parseFloat id field val r)
  = engineView (updateRow bigToString
                  (fun x => parseFloat (Some (V2.orZeroString x))) id field val r).
Proof.
  unfold updateRow. destruct (negb (String.eqb (id_ r) id)); [reflexivity|].
  destruct field; try reflexivity; cbv zeta.
  - destruct (orZeroString_cases (Some (Price r))) as [[E1 E2]|E].
    + rewrite E1, E2. unfold engineView, V1.volOf, V1.qtyOf. cbn [setVol setField Vol Qty Action Script Type_ Exchange].
      change (parseFloat (Some "0")) with zero.
      rewrite mul_zero_r_read.
      replace (negb (isNaN (parseFloat (Some val))) && negb (isNaN NaN)) with false
        by now rewrite andb_false_r.
      reflexivity.
    + now rewrite E.
  - destruct (orZeroString_cases (Qty r)) as [[E1 E2]|E].
    + rewrite E1, E2. unfold engineView, V1.volOf, V1.qtyOf. cbn [setVol setField Vol Qty Action Script Type_ Exchange].
      change (parseFloat (Some "0")) with zero.
      rewrite mul_zero_l_read. reflexivity.
    + now rewrite E.
Qed.

(** The volume the engine reads after the quantity or the price was typed:
    the product as [toFixed] printed it. *)
Lemma updateRow_volume id field val r :
  id_ r = id -> field = FQty \/ field = FPrice ->
  let q := match field with FQty => parseFloat (Some val) | _ => parseFloat (Qty r) end in
  let p := match field with FPrice => parseFloat (Some val) | _ => parseFloat (Some (Price r)) end in
  Vol (updateRow bigToString parseFloat id field val r)
  = Some (if negb (isNaN q) && negb (isNaN p)
          then toFixed2 bigToString (q * p)%num else EmptyString).
Proof.
  intros Hid Hf. unfold updateRow. rewrite Hid, String.eqb_refl.
  destruct Hf as [-> | ->]; reflexivity.
Qed.

Lemma isNaN_mul_finite (q p : num) s m e :
  (q * p)%num = S754_finite s m e -> isNaN q = false /\ isNaN p = false.
Proof. destruct q as [?|?| |? ? ?], p as [?|?| |? ? ?]; cbn; intros H; try discriminate; auto. Qed.

End EditRow.

(** * Further lemmas on the brokerage calculator *)

Section Amounts.
Implicit Types (t : Trade) (r x y : num) (m : gmap string Mcx.t).

Lemma shr_fexp_exponent_any mm e l : emin prec emax <= snd (shr_fexp prec emax mm e l).
Proof.
  unfold shr_fexp, shr.
  pose proof (fexp_ge_emin (Zdigits2 mm + e)) as Hf.
  destruct (fexp prec emax (Zdigits2 mm + e) - e) eqn:E; simpl; lia.
Qed.

Lemma binary_round_aux_wf_any s mm e l : wf (binary_round_aux prec emax s mm e l).
Proof.
  unfold binary_round_aux.
  destruct (shr_fexp prec emax mm e l) as [mrs1 e1].
  pose proof (shr_fexp_exponent_any
                (round_nearest_even (shr_m mrs1) (loc_of_shr_record mrs1))
                e1 loc_Exact) as H2.
  destruct (shr_fexp prec emax _ e1 loc_Exact) as [mrs2 e2]. simpl in H2.
  destruct (shr_m mrs2); simpl; auto.
  destruct (e2 <=? emax - prec); simpl; auto.
Qed.

Lemma mul_wf x y : wf (x * y)%num.
Proof.
  destruct x as [sx|sx| |sx mx ex], y as [sy|sy| |sy my ey]; try exact I.
  apply binary_round_aux_wf_any.
Qed.


Lemma V1_calcBrokerage_wf t r m : wf (V1.calcBrokerage t r m).
Proof.
  unfold V1.calcBrokerage.
  destruct (String.eqb (Type_ t) "FORWARD"); [exact I|]. cbv zeta.
  destruct (_ || _); [|apply mul_wf].
  destruct (V1.lotParams _). apply mul_wf.
Qed.

Lemma V2_calcBrokerage_wf t r m : wf (V2.calcBrokerage t r m).
Proof.
  unfold V2.calcBrokerage.
  destruct (String.eqb (Type_ t) "FORWARD"); [exact I|]. cbv zeta.
  destruct (m !! _); [destruct (String.eqb _ _)|]; apply mul_wf.
Qed.

(** Terms that are +0 can be left out of a running sum. *)
Lemma sumBy_filter {A} (f : A -> num) (P : A -> Prop) `{!forall a, Decision (P a)}
    (l : list A) :
  (forall a, wf (f a)) -> (forall a, a ∈ l -> ~ P a -> f a = zero) ->
  sumBy f (filter P l) = sumBy f l.
Proof.
  intros Hf Hz. induction l as [|a l IH] using rev_ind; [reflexivity|].
  assert (IH' : sumBy f (filter P l) = sumBy f l).
  { apply IH. intros b Hb. apply Hz, elem_of_app. now left. }
  rewrite filter_app, sumBy_snoc.
  destruct (decide (P a)) as [Ha|Ha].
  - rewrite (filter_cons_True _ a []) by exact Ha.
    rewrite filter_nil, sumBy_snoc. now rewrite IH'.
  - rewrite (filter_cons_False _ a []) by exact Ha.
    rewrite filter_nil, app_nil_r, IH'.
    rewrite (Hz a); [|apply elem_of_app; right; apply list_elem_of_here|exact Ha].
    symmetry. apply add_zero_r, (sumBy_wf f l Hf).
Qed.

(** Whatever is multiplied by zero is zero or NaN. *)
Lemma mul_zero_falsy x : truthy (x * zero)%num = false.
Proof. destruct x as [?|?| |? ? ?]; reflexivity. Qed.

End Amounts.

(** ** The row that [addMcx] appends *)

Section BlankRow.
Implicit Types (rows : list Mcx.t) (t : Trade) (r : num).

Lemma mcxMap_snoc rows s :
  mcxMap (rows ++ [s]) !! toUpperCase (Mcx.script s) = Some s.
Proof.
  rewrite mcxMap_fold, fold_left_app. simpl. unfold mcxInsert at 1.
  apply lookup_insert_eq.
Qed.

Lemma addMcx_lookup rows :
  mcxMap (addMcx rows) !! EmptyString
  = Some {| Mcx.script := ""; Mcx.lotQty := of_Z 1; Mcx.rate := zero |}.
Proof. unfold addMcx. apply (mcxMap_snoc rows). Qed.

End BlankRow.

(** ** The two texts on a whole list *)

Section TextsOnLists.
Implicit Types (l : list Trade) (r : num) (m : gmap string Mcx.t).

Lemma calcBrokerage_agree t r m :
  Type_ t = "FORWARD" \/
    (Exchange t = "MCX" <-> is_Some (m !! toUpperCase (Script t))) ->
  V1.calcBrokerage t r m = V2.calcBrokerage t r m.
Proof.
  intros [Hf|Hsel].
  - now rewrite V1_forward, V2_forward.
  - destruct (String.eqb_spec (Type_ t) "FORWARD") as [Hf|Hf].
    { now rewrite V1_forward, V2_forward. }
    destruct (m !! toUpperCase (Script t)) as [s|] eqn:Hs.
    + assert (Hx : Exchange t = "MCX") by (apply Hsel; eauto).
      rewrite (V1_entry t r m s Hf Hs), (V2_lot t r m s Hf Hs Hx).
      now rewrite qtyOf_agree.
    + assert (Hx : Exchange t ≠ "MCX").
      { intros Hx. apply Hsel in Hx. now destruct Hx. }
      rewrite (V1_flat t r m Hf Hs Hx), (V2_flat t r m Hf (or_introl Hs)).
      now rewrite volOf_agree.
Qed.

Lemma buildReportWith_ext (v1 v2 b1 b2 : Trade -> num) l :
  (forall t, t ∈ l -> v1 t = v2 t) -> (forall t, t ∈ l -> b1 t = b2 t) ->
  buildReportWith v1 b1 l = buildReportWith v2 b2 l.
Proof.
  intros Hv Hb. unfold buildReportWith.
  assert (H : forall g, g ∈ JsObject.values (groupTrades l) ->
                        summarise v1 b1 g = summarise v2 b2 g).
  { intros g Hg. apply values_elem_inv in Hg as (k & Hk).
    assert (Hget : JsObject.get (groupTrades l) k = Some g).
    { apply get_of_elem; [apply groupTrades_NoDup | exact Hk]. }
    rewrite groupTrades_get in Hget. unfold groupOf in Hget.
    destruct (last _) as [t0|]; [|discriminate]. injection Hget as <-.
    assert (Hb' : forall t, t ∈ filter (fun t => groupKey t = k /\ Action t = "BUY") l -> t ∈ l).
    { intros t1 Ht. now apply list_elem_of_filter in Ht as [_ Ht]. }
    assert (Hs' : forall t, t ∈ filter (fun t => groupKey t = k /\ Action t ≠ "BUY") l -> t ∈ l).
    { intros t1 Ht. now apply list_elem_of_filter in Ht as [_ Ht]. }
    unfold summarise. cbn [buys sells].
    rewrite (sumBy_ext v1 v2 (filter (fun t => groupKey t = k /\ Action t = "BUY") l)) by auto.
    rewrite (sumBy_ext v1 v2 (filter (fun t => groupKey t = k /\ Action t ≠ "BUY") l)) by auto.
    rewrite (sumBy_ext b1 b2 (filter (fun t => groupKey t = k /\ Action t = "BUY") l)) by auto.
    rewrite (sumBy_ext b1 b2 (filter (fun t => groupKey t = k /\ Action t ≠ "BUY") l)) by auto.
    reflexivity. }
  induction (JsObject.values (groupTrades l)) as [|g gs IH]; [reflexivity|].
  rewrite !fmap_cons. f_equal.
  - apply H, list_elem_of_here.
  - apply IH. intros g' Hg'. apply H. now apply list_elem_of_further.
Qed.

End TextsOnLists.

(** * Further lemmas on schedules and reports *)

Section MoreFacts.
Implicit Types (l : list Trade) (t : Trade) (k : string) (p q : list Mcx.t) (s : Mcx.t).

Lemma groupOf_nonempty k l g : groupOf k l = Some g -> (0 < groupSize g)%nat.
Proof.
  unfold groupOf. destruct (last _) as [t|] eqn:E; [|discriminate].
  intros [= <-]. apply last_Some_elem_of in E.
  apply list_elem_of_filter in E as [Hk Hin]. unfold groupSize. cbn [buys sells].
  destruct (decide (Action t = "BUY")) as [Hb|Hb].
  - assert (Ht : t ∈ filter (fun t => groupKey t = k /\ Action t = "BUY") l)
      by (apply list_elem_of_filter; auto).
    destruct (filter _ l); [now apply elem_of_nil in Ht | simpl; lia].
  - assert (Ht : t ∈ filter (fun t => groupKey t = k /\ Action t ≠ "BUY") l)
      by (apply list_elem_of_filter; auto).
    destruct (filter (fun t => groupKey t = k /\ Action t ≠ "BUY") l);
      [now apply elem_of_nil in Ht | simpl; lia].
Qed.

Lemma buildReportWith_get (volOf brokerage : Trade -> num) l k g :
  groupOf k l = Some g -> summarise volOf brokerage g ∈ buildReportWith volOf brokerage l.
Proof.
  intros H. rewrite <- groupTrades_get in H. apply get_elem in H.
  unfold buildReportWith. apply list_elem_of_fmap_2. eapply values_elem, H.
Qed.


Lemma last_addTrade (g : Group) t :
  Action t = "BUY" -> last (buys (addTrade g t)) = Some t.
Proof.
  intros H. unfold addTrade, isBuy. rewrite H. cbn [buys String.eqb].
  change (String.eqb "BUY" "BUY") with true. cbv iota. apply last_snoc.
Qed.

End MoreFacts.

(** * Reports of lists the engine reads alike *)

Section Views.
Implicit Types (a b t : Trade) (g h : Group) (o : list (string * Group)).

Lemma sameView_fields a b :
  sameView a b ->
  Action a = Action b /\ Script a = Script b /\ Type_ a = Type_ b /\
  Exchange a = Exchange b /\ V1.qtyOf a = V1.qtyOf b /\ V1.volOf a = V1.volOf b.
Proof. unfold sameView, engineView. intros [= -> -> -> -> -> ->]. repeat split. Qed.

Lemma sameView_groupKey a b : sameView a b -> groupKey a = groupKey b.
Proof.
  intros H. apply sameView_fields in H as (_ & H & _). unfold groupKey. now rewrite H.
Qed.

Lemma sameView_calc1 a b r m :
  sameView a b -> V1.calcBrokerage a r m = V1.calcBrokerage b r m.
Proof.
  intros H. apply sameView_fields in H as (_ & Hs & Ht & Hx & Hq & Hv).
  unfold V1.calcBrokerage. now rewrite Hs, Ht, Hx, Hq, Hv.
Qed.

Lemma sameView_calc2 a b r m :
  sameView a b -> V2.calcBrokerage a r m = V2.calcBrokerage b r m.
Proof.
  intros H. apply sameView_fields in H as (_ & Hs & Ht & Hx & Hq & Hv).
  unfold V2.calcBrokerage. rewrite !qtyOf_agree, !volOf_agree.
  now rewrite Hs, Ht, Hx, Hq, Hv.
Qed.

Lemma sameProp_get o1 o2 k :
  Forall2 sameProp o1 o2 ->
  option_Forall2 sameGroup (JsObject.get o1 k) (JsObject.get o2 k).
Proof.
  induction 1 as [|[k1 g1] [k2 g2] o1 o2 [Hk Hg] _ IH]; simpl; [constructor|].
  simpl in Hk. subst k2.
  destruct (String.eqb k1 k); [now constructor | exact IH].
Qed.

Lemma sameProp_set o1 o2 k g h :
  Forall2 sameProp o1 o2 -> sameGroup g h ->
  Forall2 sameProp (JsObject.set o1 k g) (JsObject.set o2 k h).
Proof.
  intros Ho Hg.
  induction Ho as [|[k1 g1] [k2 g2] o1 o2 [Hk Hg12] Ho IH]; simpl.
  - constructor; [split; [reflexivity | exact Hg] | constructor].
  - simpl in Hk. subst k2. destruct (String.eqb k1 k).
    + constructor; [split; [reflexivity | exact Hg] | exact Ho].
    + constructor; [split; [reflexivity | exact Hg12] | exact IH].
Qed.

Lemma sameProp_groupStep o1 o2 a b :
  Forall2 sameProp o1 o2 -> sameView a b ->
  Forall2 sameProp (groupStep o1 a) (groupStep o2 b).
Proof.
  intros Ho Hab. unfold groupStep. cbv zeta.
  pose proof (sameView_groupKey a b Hab) as Hk.
  pose proof (sameView_fields a b Hab) as (Ha & _ & _ & Hx & _).
  rewrite <- Hk, <- Ha, <- Hx.
  apply sameProp_set; [exact Ho|].
  destruct (sameProp_get o1 o2 (groupKey a) Ho) as [g h (Hs & He & Hb & Hl)|];
    destruct (String.eqb (Action a) "BUY"); cbn [script exchange buys sells];
    repeat split; auto; try constructor;
    try (apply Forall2_app; [assumption | repeat constructor; exact Hab]);
    repeat constructor; exact Hab.
Qed.

Lemma sameProp_fold l1 l2 :
  Forall2 sameView l1 l2 -> forall o1 o2,
  Forall2 sameProp o1 o2 ->
  Forall2 sameProp (fold_left groupStep l1 o1) (fold_left groupStep l2 o2).
Proof.
  induction 1 as [|a b l1 l2 Hab _ IH]; intros o1 o2 Ho; simpl; [exact Ho|].
  apply IH. now apply sameProp_groupStep.
Qed.

Lemma sameProp_insert i g h (l1 l2 : list (Z * Group)) :
  Forall2 sameProp l1 l2 -> sameGroup g h ->
  Forall2 sameProp (JsObject.insert_index i g l1) (JsObject.insert_index i h l2).
Proof.
  intros Hl Hg.
  induction Hl as [|[j1 g1] [j2 g2] l1 l2 [Hj Hg12] Hl IH]; simpl.
  - constructor; [split; [reflexivity | exact Hg] | constructor].
  - simpl in Hj. subst j2. destruct (i <? j1).
    + constructor; [split; [reflexivity | exact Hg]|].
      constructor; [split; [reflexivity | exact Hg12] | exact Hl].
    + constructor; [split; [reflexivity | exact Hg12] | exact IH].
Qed.

Lemma sameProp_index_props o1 o2 :
  Forall2 sameProp o1 o2 ->
  Forall2 sameProp (JsObject.index_props o1) (JsObject.index_props o2).
Proof.
  induction 1 as [|[k1 g1] [k2 g2] o1 o2 [Hk Hg] _ IH]; simpl; [constructor|].
  simpl in Hk. subst k2.
  destruct (JsObject.array_index k1); [|exact IH].
  now apply sameProp_insert.
Qed.

Lemma sameProp_string_props o1 o2 :
  Forall2 sameProp o1 o2 ->
  Forall2 sameGroup (JsObject.string_props o1) (JsObject.string_props o2).
Proof.
  induction 1 as [|[k1 g1] [k2 g2] o1 o2 [Hk Hg] _ IH]; simpl; [constructor|].
  simpl in Hk. subst k2.
  destruct (JsObject.array_index k1); [exact IH|]. now constructor.
Qed.

Lemma sameProp_values o1 o2 :
  Forall2 sameProp o1 o2 ->
  Forall2 sameGroup (JsObject.values o1) (JsObject.values o2).
Proof.
  intros H. unfold JsObject.values. apply Forall2_app.
  - pose proof (sameProp_index_props o1 o2 H) as Hi.
    induction Hi as [|x y l1 l2 [_ Hg] _ IH]; simpl; constructor; assumption.
  - now apply sameProp_string_props.
Qed.

Lemma sumBy_sameView (f1 f2 : Trade -> num) (l1 l2 : list Trade) :
  (forall a b, sameView a b -> f1 a = f2 b) ->
  Forall2 sameView l1 l2 -> sumBy f1 l1 = sumBy f2 l2.
Proof.
  intros Hf Hl. unfold sumBy. generalize zero.
  induction Hl as [|a b l1 l2 Hab _ IH]; intros z; simpl; [reflexivity|].
  rewrite (Hf a b Hab). apply IH.
Qed.

Lemma sameGroup_figures (v1 v2 b1 b2 : Trade -> num) g h :
  (forall a b, sameView a b -> v1 a = v2 b) ->
  (forall a b, sameView a b -> b1 a = b2 b) ->
  sameGroup g h ->
  figures (summarise v1 b1 g) = figures (summarise v2 b2 h).
Proof.
  intros Hv Hb (Hs & He & Hbuys & Hsells).
  unfold figures, summarise. cbn [group script exchange buyVol sellVol buyBrk sellBrk
    totalBrk gross net].
  rewrite Hs, He.
  rewrite (sumBy_sameView v1 v2 _ _ Hv Hbuys), (sumBy_sameView v1 v2 _ _ Hv Hsells).
  rewrite (sumBy_sameView b1 b2 _ _ Hb Hbuys), (sumBy_sameView b1 b2 _ _ Hb Hsells).
  reflexivity.
Qed.

Lemma buildReportWith_figures (v1 v2 b1 b2 : Trade -> num) (l1 l2 : list Trade) :
  (forall a b, sameView a b -> v1 a = v2 b) ->
  (forall a b, sameView a b -> b1 a = b2 b) ->
  Forall2 sameView l1 l2 ->
  figures <$> buildReportWith v1 b1 l1 = figures <$> buildReportWith v2 b2 l2.
Proof.
  intros Hv Hb Hl. unfold buildReportWith, groupTrades.
  pose proof (sameProp_values _ _
                (sameProp_fold l1 l2 Hl JsObject.empty JsObject.empty
                   (List.Forall2_nil _))) as H.
  induction H as [|g h gs hs Hg _ IH]; [reflexivity|].
  simpl map. rewrite !fmap_cons. f_equal; [|exact IH].
  now apply sameGroup_figures.
Qed.

Lemma sameView_lists (l1 l2 : list Trade) :
  engineView <$> l1 = engineView <$> l2 -> Forall2 sameView l1 l2.
Proof.
  revert l2. induction l1 as [|a l1 IH]; intros [|b l2] H; try discriminate.
  - constructor.
  - rewrite !fmap_cons in H.
    assert (Hab : sameView a b) by (unfold sameView; congruence).
    assert (Hl : engineView <$> l1 = engineView <$> l2) by congruence.
    constructor; [exact Hab | now apply IH].
Qed.

End Views.

(** * Lists of FORWARD trades *)

Section ForwardOnly.

Lemma sub_zero_r (x : num) : (x - zero)%num = x.
Proof. destruct x as [[]|[]| |[] m e]; reflexivity. Qed.

Lemma sumBy_zeros {A} (f : A -> num) (l : list A) :
  (forall a, a ∈ l -> f a = zero) -> sumBy f l = zero.
Proof.
  intros H. induction l as [|a l IH] using rev_ind; [reflexivity|].
  rewrite sumBy_snoc, IH, H.
  - reflexivity.
  - apply elem_of_app. right. apply list_elem_of_here.
  - intros b Hb. apply H, elem_of_app. now left.
Qed.

Lemma buildReportWith_rows (volOf brokerage : Trade -> num) (l : list Trade)
    (g : ReportGroup) (t : Trade) :
  g ∈ buildReportWith volOf brokerage l -> t ∈ buys g \/ t ∈ sells g -> t ∈ l.
Proof.
  intros Hg Ht. apply buildReportWith_groupOf in Hg. unfold groupOf in Hg.
  destruct (last _); [|discriminate]. injection Hg as Hg. rewrite <- Hg in Ht.
  cbn [buys sells] in Ht.
  destruct Ht as [Ht|Ht]; now apply list_elem_of_filter in Ht as [_ Ht].
Qed.

End ForwardOnly.

(** * Further properties of the program *)

(** X1: the groups of the report come as [Object.values] lists them.  The
    symbols that are array indices come first, in ascending order of their
    numeric value; the other symbols follow in the order in which they first
    appear among the trades.  Both texts give the same list of symbols. *)
Theorem report_order_index_then_first_seen
    (trades : list Trade) (nseRate : num) (m : gmap string Mcx.t) :
  let seen := firstSeen (groupKey <$> trades) in
  (exists idx str : list string,
     (fun g : ReportGroup => script g) <$> V1.buildReport trades nseRate m = idx ++ str /\
     Forall isIndexKey idx /\
     Sorted Z.le (omap JsObject.array_index idx) /\
     idx ≡ₚ filter isIndexKey seen /\
     str = filter (fun k => JsObject.array_index k = None) seen) /\
  (fun g : ReportGroup => script g) <$> V2.buildReport trades nseRate m
  = (fun g : ReportGroup => script g) <$> V1.buildReport trades nseRate m.
Proof.
  cbv zeta. split.
  - apply buildReportWith_scripts.
  - unfold V1.buildReport, V2.buildReport.
    now rewrite !report_scripts, !buildReportWith_groups.
Qed.

(** X2: every group of the report holds exactly the trades filed under its
    symbol: the buys (action BUY) and the sells (any other action), each in
    their order in the input, under the exchange of the last trade of the
    symbol. *)
Theorem report_group_contents
    (trades : list Trade) (nseRate : num) (m : gmap string Mcx.t) :
  Forall (fun g : ReportGroup => groupOf (script g) trades = Some (group g))
    (V1.buildReport trades nseRate m) /\
  Forall (fun g : ReportGroup => groupOf (script g) trades = Some (group g))
    (V2.buildReport trades nseRate m).
Proof.
  split; apply Forall_forall; intros g Hg;
    eapply buildReportWith_groupOf; exact Hg.
Qed.

(** X3: the report partitions the trades: the groups together hold as many
    trades as the input, no group is empty, no symbol comes twice, and the
    report is empty exactly when there are no trades. *)
Theorem report_partitions_trades
    (trades : list Trade) (nseRate : num) (m : gmap string Mcx.t) :
  let report := V1.buildReport trades nseRate m in
  sum_list ((fun g : ReportGroup => groupSize g) <$> report) = length trades /\
  Forall (fun g : ReportGroup => (0 < groupSize g)%nat) report /\
  NoDup ((fun g : ReportGroup => script g) <$> report) /\
  (report = [] <-> trades = []).
Proof.
  cbv zeta. unfold V1.buildReport.
  pose proof (buildReportWith_size V1.volOf
                (fun t => V1.calcBrokerage t nseRate m) trades) as Hsize.
  split; [exact Hsize|]. split; [|split].
  - apply Forall_forall. intros g Hg.
    apply buildReportWith_groupOf in Hg. eapply groupOf_nonempty, Hg.
  - rewrite buildReportWith_scripts_perm. apply firstSeen_NoDup.
  - split.
    + intros H. rewrite H in Hsize. simpl in Hsize.
      destruct trades; [reflexivity | discriminate].
    + intros ->. reflexivity.
Qed.

(** X4: of the rows of the schedule with the same symbol, compared in
    uppercase, the last one is the one the map holds. *)
Theorem schedule_last_row_wins (p q : list Mcx.t) (s : Mcx.t) :
  (forall s', s' ∈ q -> toUpperCase (Mcx.script s') ≠ toUpperCase (Mcx.script s)) ->
  mcxMap (p ++ s :: q) !! toUpperCase (Mcx.script s) = Some s.
Proof.
  intros H. rewrite mcxMap_fold, fold_left_app. simpl.
  rewrite fold_mcxInsert_other by exact H.
  unfold mcxInsert. apply lookup_insert_eq.
Qed.

Lemma schedule_last_row_wins_witness :
  let first := {| Mcx.script := "GOLD"; Mcx.lotQty := of_Z 1; Mcx.rate := of_Z 30 |} in
  let second := {| Mcx.script := "gold"; Mcx.lotQty := of_Z 10; Mcx.rate := of_Z 5 |} in
  let other := {| Mcx.script := "SILVER"; Mcx.lotQty := of_Z 30; Mcx.rate := of_Z 25 |} in
  mcxMap ([first] ++ second :: [other]) !! "GOLD" = Some second.
Proof.
  cbv zeta.
  refine (schedule_last_row_wins
    [{| Mcx.script := "GOLD"; Mcx.lotQty := of_Z 1; Mcx.rate := of_Z 30 |}]
    [{| Mcx.script := "SILVER"; Mcx.lotQty := of_Z 30; Mcx.rate := of_Z 25 |}]
    {| Mcx.script := "gold"; Mcx.lotQty := of_Z 10; Mcx.rate := of_Z 5 |} _).
  intros s' H.
  apply elem_of_cons in H as [->|H]; [discriminate|].
  now apply elem_of_nil in H.
Defined.

(** X5: whatever the user does on the settings tab, the flat rate is never
    NaN and every row of the schedule keeps a lot size that is neither zero
    nor NaN, a rate that is not NaN and a symbol in uppercase; so the lot
    size the calculator divides by, the default 1 included, is never zero. *)
Theorem settings_rows_stay_valid (actions : list SettingsAction) :
  let st := settingsAfter actions in
  isNaN (Settings.nseRate st) = false /\
  Forall rowOk (Settings.mcxScripts st) /\
  forall k, truthy (V1.lotParams (mcxMap (Settings.mcxScripts st) !! k)).1 = true.
Proof.
  cbv zeta. destruct (settingsAfter_ok actions) as [H1 H2].
  split; [exact H1|]. split; [exact H2|].
  intros k. destruct (mcxMap _ !! k) as [s|] eqn:E; [|reflexivity].
  apply mcxMap_lookup in E as [E _].
  rewrite Forall_forall in H2. now destruct (H2 s E).
Qed.

(** X6: [updateMcx] and [removeMcx] work by position.  [updateMcx i]
    changes the row at index [i] and no other, and nothing when [i] is past
    the end; [removeMcx i] drops the row at index [i], the rows after it
    moving up by one, and nothing when [i] is past the end. *)
Theorem schedule_edit_by_position (i j : nat) (e : McxEdit) (p : list Mcx.t) :
  updateMcx i e p !! j = (if decide (i = j) then applyEdit e <$> p !! j else p !! j) /\
  length (updateMcx i e p) = length p /\
  removeMcx i p !! j = (if decide (j < i)%nat then p !! j else p !! S j) /\
  length (removeMcx i p) = (if decide (i < length p)%nat then pred (length p) else length p).
Proof.
  rewrite updateMcx_alter, removeMcx_delete. repeat split.
  - destruct (decide (i = j)) as [->|Hne].
    + apply list_lookup_alter_eq.
    + now apply list_lookup_alter_ne.
  - apply length_alter.
  - destruct (decide (j < i)%nat) as [Hlt|Hge].
    + now apply list_lookup_delete_lt.
    + apply list_lookup_delete_ge. lia.
  - destruct (decide (i < length p)%nat) as [Hlt|Hge].
    + destruct (lookup_lt_is_Some_2 p i Hlt) as [x Hx].
      pose proof (length_delete p i ltac:(eauto)). lia.
    + f_equal. clear -Hge. revert i Hge.
      induction p as [|a p IH]; intros [|i] H; simpl in *; try reflexivity; try lia.
      f_equal. apply IH. lia.
Qed.

(** X7: what the Script input stores holds only the characters A-Z and
    0-9; typing it again changes nothing, uppercasing it changes nothing,
    and a row with that symbol is grouped under the symbol itself, or under
    UNKNOWN when nothing is left of the input. *)
Theorem script_input_sanitised (raw : string) :
  let s := scriptInput raw in
  onlyAZ09 s = true /\ scriptInput s = s /\ toUpperCase s = s /\
  forall t, Script t = s -> groupKey t = if String.eqb s "" then "UNKNOWN" else s.
Proof.
  cbv zeta. pose proof (scriptInput_only raw) as H.
  destruct (onlyAZ09_fixed _ H) as [H1 H2].
  split; [exact H|]. split; [|split; [exact H2|]].
  - unfold scriptInput at 1. now rewrite H2.
  - intros t Ht. unfold groupKey. now rewrite Ht, H2.
Qed.

(** X8: when the quantity or the price of a row is typed and the product of
    the two numbers is finite, not zero and below 10^21, the volume the
    engine reads back from the row is the decimal [n / 100] rounded to a
    double, where [n] is the integer nearest to a hundred times the
    magnitude of the product (the upper one of two). *)
Theorem edited_volume_read_back (bigToString : num -> string) (id val : string)
    (field : TradeField) (r : Trade) (s : bool) (m : BinNums.positive) (e : Z) :
  id_ r = id -> field = FQty \/ field = FPrice ->
  let q := match field with FQty => parseFloat (Some val) | _ => parseFloat (Qty r) end in
  let p := match field with
           | FPrice => parseFloat (Some val)
           | _ => parseFloat (Some (Price r))
           end in
  (q * p)%num = S754_finite s m e -> atLeast1e21 m e = false ->
  exists n : Z,
    (let d := 2 ^ Z.max 0 (- e) in
     let u := 2 ^ Z.max 0 e in
     - d < 2 * (n * d - 100 * Zpos m * u) <= d) /\
    V1.volOf (updateRow bigToString parseFloat id field val r)
    = or0 (of_decimal s n (-2)).
Proof.
  intros Hid Hf q p Hqp Hbig. exists (round2 m e). split; [apply round2_nearest|].
  unfold V1.volOf. rewrite (updateRow_volume bigToString id field val r Hid Hf).
  fold q p. destruct (isNaN_mul_finite q p s m e Hqp) as [Hq Hp].
  rewrite Hq, Hp, Hqp. cbn [negb andb].
  now rewrite toFixed2_parse.
Qed.

Lemma edited_volume_read_back_witness :
  let r := {| id_ := "a1"; Date := ""; Action := "BUY"; Qty := Some "";
              Price := "4.01"; Vol := Some ""; Script := "TCS"; Type_ := "NORMAL";
              Exchange := "NSE" |} in
  exists n : Z,
    - 2 ^ 49 < 2 * (n * 2 ^ 49 - 100 * 5643573283048652 * 1) <= 2 ^ 49 /\
    V1.volOf (updateRow (fun _ => "big") parseFloat "a1" FQty "2.5" r)
    = or0 (of_decimal false n (-2)).
Proof.
  cbv zeta.
  refine (edited_volume_read_back (fun _ => "big") "a1" "2.5" FQty
    {| id_ := "a1"; Date := ""; Action := "BUY"; Qty := Some "";
       Price := "4.01"; Vol := Some ""; Script := "TCS"; Type_ := "NORMAL";
       Exchange := "NSE" |} false 5643573283048652 (-49) _ _ _ _).
  - reflexivity.
  - left. reflexivity.
  - vm_compute. reflexivity.
  - vm_compute. reflexivity.
Defined.

(** With quantity 2.5 and price 4.01 the product is the double just below
    10.025, so the volume reads 10.02. *)
Example edited_volume_rounds_the_double :
  let r := {| id_ := "a1"; Date := ""; Action := "BUY"; Qty := Some "";
              Price := "4.01"; Vol := Some ""; Script := "TCS"; Type_ := "NORMAL";
              Exchange := "NSE" |} in
  Vol (updateRow (fun _ => "big") parseFloat "a1" FQty "2.5" r) = Some "10.02".
Proof. vm_compute. reflexivity. Qed.

(** X9: the two texts of [updateTrade] can store different volumes in a
    row (an empty string in the first, "0.00" in the second, when the other
    number is still missing), but the engine reads the same action, symbol,
    kind, exchange, quantity and volume from every row of the two lists,
    and the reports built from the two lists show the same figures. *)
Theorem updateTrade_texts_read_alike (bigToString : num -> string) (id val : string)
    (field : TradeField) (prev : list Trade) (nseRate : num) (m : gmap string Mcx.t) :
  let rows1 := Form1.updateTrade bigToString id field val prev in
  let rows2 := Form2.updateTrade bigToString id field val prev in
  engineView <$> rows1 = engineView <$> rows2 /\
  figures <$> V1.buildReport rows1 nseRate m = figures <$> V1.buildReport rows2 nseRate m.
Proof.
  cbv zeta.
  assert (H : engineView <$> Form1.updateTrade bigToString id field val prev
              = engineView <$> Form2.updateTrade bigToString id field val prev).
  { unfold Form1.updateTrade, Form2.updateTrade, updateTradeWith.
    induction prev as [|r prev IH]; [reflexivity|].
    simpl map. rewrite !fmap_cons. f_equal; [apply updateRow_view | exact IH]. }
  split; [exact H|].
  unfold V1.buildReport. apply buildReportWith_figures.
  - intros a b Hab. now apply sameView_fields in Hab.
  - intros a b Hab. now apply sameView_calc1.
  - now apply sameView_lists.
Qed.

(** The stored volumes do differ. *)
Example updateTrade_texts_store_differently :
  Vol <$> Form1.updateTrade (fun _ => "big") "x" FQty "5" [defaultRow "x"] = [Some ""] /\
  Vol <$> Form2.updateTrade (fun _ => "big") "x" FQty "5" [defaultRow "x"] = [Some "0.00"].
Proof. vm_compute. split; reflexivity. Qed.

(** X10: removing the row that [addTrade] has just appended gives the list
    back, provided the identifier of the new row is not that of an older
    row ([removeTrade] drops every row with the identifier). *)
Theorem removeTrade_after_addTrade (i : string) (p : list Trade) :
  i ∉ id_ <$> p -> Form1.removeTrade i (Form1.addTrade i p) = p.
Proof.
  intros H. unfold Form1.removeTrade, Form1.addTrade.
  rewrite filter_app.
  rewrite (filter_cons_False _ (defaultRow i) []) by (intros Hne; now apply Hne).
  rewrite filter_nil, app_nil_r.
  induction p as [|r p IH]; [reflexivity|].
  rewrite fmap_cons in H. apply not_elem_of_cons in H as [H1 H2].
  rewrite filter_cons_True by (intros E; now apply H1).
  f_equal. now apply IH.
Qed.

Lemma removeTrade_after_addTrade_witness :
  Form1.removeTrade "c" (Form1.addTrade "c" [defaultRow "a"; defaultRow "b"])
  = [defaultRow "a"; defaultRow "b"].
Proof.
  refine (removeTrade_after_addTrade "c" [defaultRow "a"; defaultRow "b"] _).
  intros H.
  repeat (apply elem_of_cons in H as [H|H]; [discriminate|]).
  now apply elem_of_nil in H.
Defined.

(** With an identifier already in use the older row goes too. *)
Example removeTrade_drops_every_match :
  Form1.removeTrade "a" (Form1.addTrade "a" [defaultRow "a"; defaultRow "b"])
  = [defaultRow "b"].
Proof. vm_compute. reflexivity. Qed.

(** X11: a row appended by [addTrade] is in the report at once: the report
    has a group UNKNOWN whose exchange is NSE and whose last buy is the new
    row. *)
Theorem new_row_in_report (i : string) (p : list Trade) (nseRate : num)
    (m : gmap string Mcx.t) :
  exists g : ReportGroup,
    g ∈ V1.buildReport (Form1.addTrade i p) nseRate m /\
    script g = "UNKNOWN" /\ exchange g = "NSE" /\ last (buys g) = Some (defaultRow i).
Proof.
  pose proof (groupOf_snoc_same p (defaultRow i)) as H.
  change (groupKey (defaultRow i)) with "UNKNOWN" in H.
  set (g0 := default (freshGroup (defaultRow i)) (groupOf "UNKNOWN" p)) in *.
  exists (summarise V1.volOf (fun t => V1.calcBrokerage t nseRate m)
            (addTrade g0 (defaultRow i))).
  split; [|split; [|split]].
  - unfold V1.buildReport, Form1.addTrade. eapply buildReportWith_get, H.
  - cbn [group script addTrade summarise]. unfold g0, groupOf.
    destruct (last _); reflexivity.
  - reflexivity.
  - cbn [group summarise]. now apply last_addTrade.
Qed.

(** X12: FORWARD trades add nothing to the brokerage of a group: each
    brokerage sum of the report is the sum over the trades of the list that
    are not FORWARD. *)
Theorem forward_trades_skipped_in_sums
    (trades : list Trade) (nseRate : num) (m : gmap string Mcx.t) :
  let charged := filter (fun t => Type_ t ≠ "FORWARD") in
  Forall (fun g : ReportGroup =>
            buyBrk g = sumBy (fun t => V1.calcBrokerage t nseRate m) (charged (buys g)) /\
            sellBrk g = sumBy (fun t => V1.calcBrokerage t nseRate m) (charged (sells g)))
    (V1.buildReport trades nseRate m) /\
  Forall (fun g : ReportGroup =>
            buyBrk g = sumBy (fun t => V2.calcBrokerage t nseRate m) (charged (buys g)) /\
            sellBrk g = sumBy (fun t => V2.calcBrokerage t nseRate m) (charged (sells g)))
    (V2.buildReport trades nseRate m).
Proof.
  cbv zeta.
  assert (Hfw : forall t, ~ Type_ t ≠ "FORWARD" -> Type_ t = "FORWARD").
  { intros t H. destruct (decide (Type_ t = "FORWARD")); [assumption | contradiction]. }
  split; apply Forall_forall; intros g Hg;
    apply buildReportWith_sums in Hg as (_ & _ & Hb & Hs & _);
    rewrite Hb, Hs; split; symmetry; apply sumBy_filter;
    try (intros t; apply V1_calcBrokerage_wf);
    try (intros t; apply V2_calcBrokerage_wf);
    intros t _ Ht; first [apply V1_forward | apply V2_forward]; now apply Hfw.
Qed.

(** X13: the row that [addMcx] appends has an empty symbol, lot size 1 and
    rate 0, and the map holds it under the empty key.  From then on the
    first text prices every trade with an empty symbol by that row: its
    brokerage is zero (NaN for an infinite quantity) whatever its volume,
    its exchange and the flat rate.  The second text does so for the trades
    whose exchange is MCX. *)
Theorem blank_schedule_row_prices_blank_symbol
    (rows : list Mcx.t) (t : Trade) (nseRate : num) :
  Script t = "" ->
  truthy (V1.calcBrokerage t nseRate (mcxMap (addMcx rows))) = false /\
  (Exchange t = "MCX" ->
   truthy (V2.calcBrokerage t nseRate (mcxMap (addMcx rows))) = false).
Proof.
  intros Hs.
  pose proof (addMcx_lookup rows) as Hl.
  change EmptyString with (toUpperCase EmptyString) in Hl at 1. rewrite <- Hs in Hl.
  destruct (String.eqb_spec (Type_ t) "FORWARD") as [Hf|Hf].
  - rewrite (V1_forward t _ _ Hf), (V2_forward t _ _ Hf). split; reflexivity.
  - split.
    + rewrite (V1_entry t _ _ _ Hf Hl). apply mul_zero_falsy.
    + intros Hx. rewrite (V2_lot t _ _ _ Hf Hl Hx). apply mul_zero_falsy.
Qed.

Lemma blank_schedule_row_prices_blank_symbol_witness :
  let t := row "BUY" "10" "1000" "" "NORMAL" "NSE" in
  truthy (V1.calcBrokerage t DEFAULT_NSE_RATE (mcxMap (addMcx DEFAULT_MCX_SCRIPTS))) = false /\
  (Exchange t = "MCX" ->
   truthy (V2.calcBrokerage t DEFAULT_NSE_RATE (mcxMap (addMcx DEFAULT_MCX_SCRIPTS))) = false).
Proof.
  cbv zeta.
  refine (blank_schedule_row_prices_blank_symbol DEFAULT_MCX_SCRIPTS
            (row "BUY" "10" "1000" "" "NORMAL" "NSE") DEFAULT_NSE_RATE _).
  reflexivity.
Defined.

(** The same trade before and after the click on the add button. *)
Example blank_symbol_before_and_after :
  let t := row "BUY" "10" "1000" "" "NORMAL" "NSE" in
  V1.calcBrokerage t DEFAULT_NSE_RATE (mcxMap DEFAULT_MCX_SCRIPTS) = parseFloat (Some "0.3") /\
  V1.calcBrokerage t DEFAULT_NSE_RATE (mcxMap (addMcx DEFAULT_MCX_SCRIPTS)) = zero.
Proof. vm_compute. split; reflexivity. Qed.

(** X14: the two texts of the engine build the same report from a list of
    trades each of which is FORWARD or has exchange MCX exactly when the
    schedule has an entry under its uppercased symbol. *)
Theorem buildReport_texts_agree
    (trades : list Trade) (nseRate : num) (m : gmap string Mcx.t) :
  (forall t, t ∈ trades ->
     Type_ t = "FORWARD" \/
     (Exchange t = "MCX" <-> is_Some (m !! toUpperCase (Script t)))) ->
  V1.buildReport trades nseRate m = V2.buildReport trades nseRate m.
Proof.
  intros H. unfold V1.buildReport, V2.buildReport.
  apply buildReportWith_ext.
  - intros t _. symmetry. apply volOf_agree.
  - intros t Ht. apply calcBrokerage_agree, H, Ht.
Qed.

Lemma buildReport_texts_agree_witness :
  let trades := [row "BUY" "10" "35000" "tcs" "NORMAL" "NSE";
                 row "SELL" "1" "60000" "gold" "NORMAL" "MCX";
                 row "BUY" "5" "100" "gold" "FORWARD" "NSE"] in
  V1.buildReport trades DEFAULT_NSE_RATE (mcxMap DEFAULT_MCX_SCRIPTS)
  = V2.buildReport trades DEFAULT_NSE_RATE (mcxMap DEFAULT_MCX_SCRIPTS).
Proof.
  cbv zeta.
  refine (buildReport_texts_agree
    [row "BUY" "10" "35000" "tcs" "NORMAL" "NSE";
     row "SELL" "1" "60000" "gold" "NORMAL" "MCX";
     row "BUY" "5" "100" "gold" "FORWARD" "NSE"]
    DEFAULT_NSE_RATE (mcxMap DEFAULT_MCX_SCRIPTS) _).
  intros t Ht.
  apply elem_of_cons in Ht as [->|Ht].
  { right. split; [discriminate|]. intros [x Hx]. vm_compute in Hx. discriminate. }
  apply elem_of_cons in Ht as [->|Ht].
  { right. split; [|reflexivity]. intros _. vm_compute. eauto. }
  apply elem_of_cons in Ht as [->|Ht].
  { left. reflexivity. }
  now apply elem_of_nil in Ht.
Defined.

(** X15: the figures of the report (symbol, exchange, volumes, brokerage,
    gross and net of every group) depend on the rows only through what the
    engine reads of them: two lists whose rows agree in action, symbol,
    kind, exchange, parsed quantity and parsed volume give the same
    figures, whatever their identifiers, dates, prices and spellings of the
    numbers. *)
Theorem report_figures_depend_on_view
    (l1 l2 : list Trade) (nseRate : num) (m : gmap string Mcx.t) :
  engineView <$> l1 = engineView <$> l2 ->
  figures <$> V1.buildReport l1 nseRate m = figures <$> V1.buildReport l2 nseRate m /\
  figures <$> V2.buildReport l1 nseRate m = figures <$> V2.buildReport l2 nseRate m.
Proof.
  intros H. apply sameView_lists in H.
  split; unfold V1.buildReport, V2.buildReport; apply buildReportWith_figures;
    try exact H; intros a b Hab.
  - now apply sameView_fields in Hab.
  - now apply sameView_calc1.
  - rewrite !volOf_agree. now apply sameView_fields in Hab.
  - now apply sameView_calc2.
Qed.

Lemma report_figures_depend_on_view_witness :
  let l1 := [row "BUY" "10" "1000" "tcs" "NORMAL" "NSE"] in
  let l2 := [{| id_ := "k3"; Date := "01/02/2024"; Action := "BUY"; Qty := Some "10.0";
                Price := "100"; Vol := Some "1e3"; Script := "tcs"; Type_ := "NORMAL";
                Exchange := "NSE" |}] in
  figures <$> V1.buildReport l1 DEFAULT_NSE_RATE (mcxMap DEFAULT_MCX_SCRIPTS)
  = figures <$> V1.buildReport l2 DEFAULT_NSE_RATE (mcxMap DEFAULT_MCX_SCRIPTS) /\
  figures <$> V2.buildReport l1 DEFAULT_NSE_RATE (mcxMap DEFAULT_MCX_SCRIPTS)
  = figures <$> V2.buildReport l2 DEFAULT_NSE_RATE (mcxMap DEFAULT_MCX_SCRIPTS).
Proof.
  cbv zeta.
  refine (report_figures_depend_on_view
    [row "BUY" "10" "1000" "tcs" "NORMAL" "NSE"]
    [{| id_ := "k3"; Date := "01/02/2024"; Action := "BUY"; Qty := Some "10.0";
        Price := "100"; Vol := Some "1e3"; Script := "tcs"; Type_ := "NORMAL";
        Exchange := "NSE" |}]
    DEFAULT_NSE_RATE (mcxMap DEFAULT_MCX_SCRIPTS) _).
  vm_compute. reflexivity.
Defined.

(** X16: a list of FORWARD trades pays no brokerage: in every group of the
    report the brokerage sums are +0 and the net is the gross, and the
    grand total of brokerage is +0. *)
Theorem forward_only_report
    (trades : list Trade) (nseRate : num) (m : gmap string Mcx.t) :
  (forall t, t ∈ trades -> Type_ t = "FORWARD") ->
  Forall (fun g : ReportGroup =>
            buyBrk g = zero /\ sellBrk g = zero /\ totalBrk g = zero /\ net g = gross g)
    (V1.buildReport trades nseRate m) /\
  totalBrokerage (V1.buildReport trades nseRate m) = zero.
Proof.
  intros H.
  assert (Hg : forall g : ReportGroup, g ∈ V1.buildReport trades nseRate m ->
                 buyBrk g = zero /\ sellBrk g = zero /\ totalBrk g = zero /\
                 net g = gross g).
  { intros g Hg. unfold V1.buildReport in Hg.
    pose proof (buildReportWith_sums _ _ _ _ Hg) as (_ & _ & Hb & Hs & Ht & _ & Hn).
    assert (Hb0 : buyBrk g = zero).
    { rewrite Hb. apply sumBy_zeros. intros t Ht'. apply V1_forward, H.
      eapply buildReportWith_rows; [exact Hg | now left]. }
    assert (Hs0 : sellBrk g = zero).
    { rewrite Hs. apply sumBy_zeros. intros t Ht'. apply V1_forward, H.
      eapply buildReportWith_rows; [exact Hg | now right]. }
    assert (Ht0 : totalBrk g = zero) by (rewrite Ht, Hb0, Hs0; reflexivity).
    repeat split; try assumption.
    rewrite Hn, Ht0. apply sub_zero_r. }
  split.
  - apply Forall_forall. exact Hg.
  - unfold totalBrokerage. apply sumBy_zeros. intros g Hin. now apply Hg.
Qed.

Lemma forward_only_report_witness :
  let trades := [row "BUY" "10" "35000" "tcs" "FORWARD" "NSE";
                 row "SELL" "1" "60000" "gold" "FORWARD" "MCX"] in
  Forall (fun g : ReportGroup =>
            buyBrk g = zero /\ sellBrk g = zero /\ totalBrk g = zero /\ net g = gross g)
    (V1.buildReport trades DEFAULT_NSE_RATE (mcxMap DEFAULT_MCX_SCRIPTS)) /\
  totalBrokerage (V1.buildReport trades DEFAULT_NSE_RATE (mcxMap DEFAULT_MCX_SCRIPTS)) = zero.
Proof.
  cbv zeta.
  refine (forward_only_report
    [row "BUY" "10" "35000" "tcs" "FORWARD" "NSE";
     row "SELL" "1" "60000" "gold" "FORWARD" "MCX"]
    DEFAULT_NSE_RATE (mcxMap DEFAULT_MCX_SCRIPTS) _).
  intros t Ht.
  repeat (apply elem_of_cons in Ht as [->|Ht]; [reflexivity|]).
  now apply elem_of_nil in Ht.
Defined.

(** X17: the other outcomes of an edit of the quantity or the price.  When
    one of the two numbers is missing or the product is NaN or zero, the
    engine reads the volume +0 from the row; when the product is infinite,
    it reads that infinity. *)
Theorem edited_volume_edge_cases (bigToString : num -> string) (id val : string)
    (field : TradeField) (r : Trade) :
  id_ r = id -> field = FQty \/ field = FPrice ->
  let q := match field with FQty => parseFloat (Some val) | _ => parseFloat (Qty r) end in
  let p := match field with
           | FPrice => parseFloat (Some val)
           | _ => parseFloat (Some (Price r))
           end in
  let read := V1.volOf (updateRow bigToString parseFloat id field val r) in
  match (q * p)%num with
  | S754_finite _ _ _ => True
  | S754_infinity s => read = S754_infinity s
  | _ => read = zero
  end.
Proof.
  intros Hid Hf q p read. unfold read, V1.volOf.
  rewrite (updateRow_volume bigToString id field val r Hid Hf). fold q p.
  destruct (isNaN q) eqn:Hq.
  { destruct q; try discriminate. reflexivity. }
  destruct (isNaN p) eqn:Hp.
  { destruct p; try discriminate. rewrite mul_NaN_r. reflexivity. }
  cbn [negb andb].
  destruct (q * p)%num as [s|s| |s m e] eqn:Hx; [| | |exact I];
    rewrite (toFixed2_parse_special bigToString) by exact I.
  - reflexivity.
  - destruct s; reflexivity.
  - reflexivity.
Qed.

Lemma edited_volume_edge_cases_witness :
  let r := {| id_ := "a1"; Date := ""; Action := "BUY"; Qty := Some "";
              Price := "4.01"; Vol := Some "7"; Script := "TCS"; Type_ := "NORMAL";
              Exchange := "NSE" |} in
  V1.volOf (updateRow (fun _ => "big") parseFloat "a1" FQty "abc" r) = zero.
Proof.
  cbv zeta.
  refine (edited_volume_edge_cases (fun _ => "big") "a1" "abc" FQty
    {| id_ := "a1"; Date := ""; Action := "BUY"; Qty := Some "";
       Price := "4.01"; Vol := Some "7"; Script := "TCS"; Type_ := "NORMAL";
       Exchange := "NSE" |} _ _).
  - reflexivity.
  - left. reflexivity.
Defined.
